(** * UniversalPlayer: a shallow embedding of the playback core

    The development follows the JavaScript sources of the player:

    - [JS]: the fragment of JavaScript values the code manipulates
      (numbers, strings, plain objects, arrays) and the completion of a
      call (normal return or thrown exception);
    - [ConfigManager]   (src/core/ConfigManager.js);
    - [MediaFactory]    (src/core/MediaFactory.js);
    - [EventManager]    (src/core/EventManager.js);
    - [VideoSource]     (src/media/VideoSource.js);
    - [AnalyticsManager] (src/core/AnalyticsManager.js);
    - [Player]          (src/player.js: UniversalPlayer and PlayerInstance).

    Definitions come first, the theorems about them follow. *)

From Stdlib Require Import QArith ZArith Qminmax Ascii.
From stdpp Require Import gmap strings list.

Set Warnings "-register-all".
Local Open Scope string_scope.
Local Open Scope list_scope.

(* ===================================================================== *)
(** ** JavaScript values *)
(* ===================================================================== *)

Module JS.

(** A JavaScript number.  Every finite double is a rational, so the finite
    numbers are embedded in [Q]; the two infinities and NaN are kept apart
    because the code tests for them ([Number.isFinite], truthiness).  The
    two zeros are identified (the code never divides by a zero it has not
    tested).  Comparison, [Math.min] and [Math.max] are exact on doubles;
    division rounds its quotient to the nearest double ([roundDouble]). *)
Inductive number : Type :=
| NaN
| NegInf
| PosInf
| Fin (q : Q).

Definition num (z : Z) : number := Fin (inject_Z z).

(** [a < b]: false as soon as one side is NaN. *)
Definition lessThan (a b : number) : bool :=
  match a, b with
  | NaN, _ | _, NaN => false
  | NegInf, NegInf => false
  | NegInf, _ => true
  | _, NegInf => false
  | PosInf, _ => false
  | Fin _, PosInf => true
  | Fin x, Fin y => negb (Qle_bool y x)
  end.

(** [a === b] on numbers. *)
Definition strictEquals (a b : number) : bool :=
  match a, b with
  | NegInf, NegInf | PosInf, PosInf => true
  | Fin x, Fin y => Qeq_bool x y
  | _, _ => false
  end.

(** [a > b] and [a >= b]. *)
Definition greaterThan (a b : number) : bool := lessThan b a.
Definition atLeast (a b : number) : bool := lessThan b a || strictEquals a b.

Definition isNaN (a : number) : bool :=
  match a with NaN => true | _ => false end.

(** [Number.isFinite] on a number. *)
Definition isFinite (a : number) : bool :=
  match a with Fin _ => true | _ => false end.

(** [Math.min(a, b)] and [Math.max(a, b)]: NaN is contagious. *)
Definition Math_min (a b : number) : number :=
  if isNaN a || isNaN b then NaN else if lessThan a b then a else b.

Definition Math_max (a b : number) : number :=
  if isNaN a || isNaN b then NaN else if lessThan a b then b else a.

(** *** Rounding to binary64

    A finite double is [m * 2^e] with [|m| < 2^53] and [-1074 <= e <= 971].
    [roundDouble q] is the double nearest to the rational [q], ties going
    to the even significand, as IEEE 754 asks of every operation that does
    not come out exactly; from [2^1024 - 2^970] on the result is infinite. *)

(** [floorLog2 n d] is the integer part of the binary logarithm of [n / d],
    for positive [n] and [d]. *)
Definition floorLog2 (n d : Z) : Z :=
  let k := (Z.log2 n - Z.log2 d)%Z in
  if (0 <=? k)%Z
  then (if (d * 2 ^ k <=? n)%Z then k else k - 1)%Z
  else (if (d <=? n * 2 ^ (- k))%Z then k else k - 1)%Z.

(** The integer nearest to [n / d], the even one of two that are equally
    near. *)
Definition roundHalfEven (n d : Z) : Z :=
  let m := (n / d)%Z in
  let r := (n mod d)%Z in
  if (d <? 2 * r)%Z then (m + 1)%Z
  else if (2 * r =? d)%Z then (if Z.even m then m else m + 1)%Z
  else m.

Definition roundDouble (q : Q) : number :=
  let n := Z.abs (Qnum q) in
  let d := Zpos (Qden q) in
  if (n =? 0)%Z then Fin 0
  else
    let e := Z.max (floorLog2 n d - 52) (-1074) in
    let m := if (0 <=? e)%Z then roundHalfEven n (d * 2 ^ e)
             else roundHalfEven (n * 2 ^ (- e)) d in
    if (2 ^ 1024 <=? m * 2 ^ e)%Z
    then (if (0 <? Qnum q)%Z then PosInf else NegInf)
    else Fin (Qred (inject_Z (Z.sgn (Qnum q) * m) * 2 ^ e)).

(** The value of a decimal literal such as [0.8]: the nearest double. *)
Definition double (q : Q) : number := roundDouble q.

(** [a / b]: the quotient rounded to the nearest double.  A zero divisor
    is read as [+0]. *)
Definition div (a b : number) : number :=
  match a, b with
  | NaN, _ | _, NaN => NaN
  | Fin x, Fin y =>
      if Qeq_bool y 0
      then (if Qeq_bool x 0 then NaN
            else if Qle_bool 0 x then PosInf else NegInf)
      else roundDouble (x / y)
  | Fin _, _ => Fin 0
  | PosInf, Fin y => if Qle_bool 0 y then PosInf else NegInf
  | NegInf, Fin y => if Qle_bool 0 y then NegInf else PosInf
  | _, _ => NaN
  end.

(** The values found in a configuration tree and in event payloads.
    A plain object is a finite map from its own enumerable string keys. *)
Inductive value : Type :=
| VUndefined
| VNull
| VBool (b : bool)
| VNum (n : number)
| VStr (s : string)
| VArr (l : list value)
| VObj (o : gmap string value).

(** An object literal: its properties, in source order. *)
Definition obj (props : list (string * value)) : gmap string value :=
  list_to_map props.

(** ToBoolean. *)
Definition truthy (v : value) : bool :=
  match v with
  | VUndefined | VNull => false
  | VBool b => b
  | VNum NaN => false
  | VNum (Fin q) => negb (Qeq_bool q 0)
  | VNum _ => true
  | VStr s => negb (String.eqb s "")
  | VArr _ | VObj _ => true
  end.

(** [o.k] on a plain object: a missing property reads as [undefined]. *)
Definition prop (o : gmap string value) (k : string) : value :=
  default VUndefined (o !! k).

(** What a call can throw. *)
Inductive exn : Type :=
| Error (message : string)
| TypeError (message : string)
| DOMException (name : string).

(** Completion of a call: a normal return or a thrown exception. *)
Inductive completion (A : Type) : Type :=
| Return (a : A)
| Throw (e : exn).
Arguments Return {A} a.
Arguments Throw {A} e.

Definition bind {A B} (c : completion A) (k : A -> completion B) : completion B :=
  match c with
  | Return a => k a
  | Throw e => Throw e
  end.

Section Coercion.
(** ToNumber of a string, an array or an object goes through the numeric
    grammar and [valueOf]/[toString]; it is taken as given. *)
Variable coerce : value -> number.

Definition ToNumber (v : value) : number :=
  match v with
  | VUndefined => NaN
  | VNull => num 0
  | VBool b => if b then num 1 else num 0
  | VNum n => n
  | VStr _ | VArr _ | VObj _ => coerce v
  end.

(** [v < n] and [v > n] for a value against a number literal. *)
Definition lt_lit (v : value) (n : number) : bool := lessThan (ToNumber v) n.
Definition gt_lit (v : value) (n : number) : bool := greaterThan (ToNumber v) n.
End Coercion.

(** [Number.isFinite(v)]: false for everything that is not a number. *)
Definition Number_isFinite (v : value) : bool :=
  match v with VNum n => isFinite n | _ => false end.

(** [parts.join(sep)] on strings. *)
Fixpoint join (sep : string) (parts : list string) : string :=
  match parts with
  | [] => ""
  | [s] => s
  | s :: rest => s +:+ sep +:+ join sep rest
  end.

End JS.

Export JS.

#[export] Instance completion_bind : MBind completion :=
  fun _ _ k c => JS.bind c k.

(* ===================================================================== *)
(** ** ConfigManager *)
(* ===================================================================== *)

Module ConfigManager.

Definition numList (l : list Q) : value := VArr (map (fun q => VNum (Fin q)) l).
Definition strList (l : list string) : value := VArr (map VStr l).

(** [this.defaultConfig] as built by the constructor. *)
Definition defaultConfig : gmap string value :=
  obj [ ("videoUrl", VStr "");
        ("poster", VStr "");
        ("autoplay", VBool false);
        ("startOffset", VNum (num 0));
        ("vertical", VBool false);
        ("locale", VStr "en");
        ("priority", VStr "hls");
        ("container", VNull);
        ("features", VObj (obj
          [ ("speed", VBool true);
            ("nextVideo", VBool true);
            ("volume", VBool true);
            ("pip", VBool true);
            ("chromecast", VBool false);
            ("qualityInControlBar", VBool true);
            ("topBar", VBool true);
            ("share", VBool false);
            ("oneHand", VBool false);
            ("cinema", VBool true);
            ("ccVisible", VBool true) ]));
        ("hlsConfig", VObj (obj
          [ ("maxBufferLength", VNum (num 30));
            ("maxInitialBufferLength", VNum (num 6));
            ("prebufferGoal", VNum (num 3));
            ("enableWorker", VBool true);
            ("lowLatencyMode", VBool false) ]));
        ("hotspots", VArr []);
        ("menu", VObj (obj
          [ ("related", VArr []);
            ("showOnPause", VBool true);
            ("slideout", VBool false) ]));
        ("theme", VObj (obj
          [ ("customColor", VStr "#FF6B00");
            ("customLogo", VStr "");
            ("themeCode", VStr "default") ]));
        ("pip", VObj (obj
          [ ("enabled", VBool true);
            ("position", VStr "bottom-right");
            ("size", VObj (obj [ ("width", VNum (num 320));
                                 ("height", VNum (num 180)) ])) ]));
        ("eventTracking", VObj (obj
          [ ("enabled", VBool false);
            ("cdn", VStr "unknown");
            ("isp", VStr "unknown");
            ("geo", VStr "unknown");
            ("videoId", VStr "");
            ("playerSource", VStr "universal-player");
            ("viewedThreshold", VNum (double (8 # 10)));
            ("trackingUrl", VStr "") ]));
        ("nextVideo", VObj (obj
          [ ("enabled", VBool true);
            ("url", VStr "");
            ("title", VStr "");
            ("poster", VStr "");
            ("countdown", VNum (num 10)) ]));
        ("adRolls", VObj (obj
          [ ("preRoll", VNull);
            ("postRoll", VNull);
            ("pauseRoll", VNull) ]));
        ("isVr", VBool false);
        ("vrProps", VObj (obj []));
        ("ui", VObj (obj
          [ ("hideControlsTimeout", VNum (num 3000));
            ("showThumbnails", VBool true);
            ("showDuration", VBool true);
            ("showCurrentTime", VBool true);
            ("controlsAlwaysVisible", VBool false) ]));
        ("quality", VObj (obj
          [ ("default", VStr "auto");
            ("levels", strList ["auto"; "1080p"; "720p"; "480p"; "360p"; "240p"]) ]));
        ("speed", VObj (obj
          [ ("default", VNum (num 1));
            ("options", numList [1 # 4; 1 # 2; 3 # 4; 1; 5 # 4; 3 # 2; 7 # 4; 2]%Q) ]));
        ("volume", VNum (num 1));
        ("muted", VBool false);
        ("subtitles", VObj (obj
          [ ("enabled", VBool false);
            ("tracks", VArr []);
            ("defaultLanguage", VStr "en") ])) ].

(** [isObject(item)]: truthy, of type object, and not an array. *)
Definition isObject (item : value) : bool :=
  match item with VObj _ => true | _ => false end.

(** *** [deepMerge]

    [deepMerge(target, source)] copies the target and runs through the
    keys of the source; at each key it asks [source.hasOwnProperty(key)],
    then stores [deepMerge(result[key], source[key])] when both values are
    plain objects and [source[key]] otherwise.  Two keys of a source take
    the call off this path:

    - an own key [hasOwnProperty] hides the method of that name: the
      guard of the loop calls the value stored there, which is not a
      function, and a TypeError is thrown at the first key;
    - an own key [__proto__] (as [JSON.parse] creates it) that the
      target does not own makes [result[key]] read the prototype of the
      result and sends the assignment to [result[key]] to the setter of
      the prototype.

    The call is described in two parts: how it ends ([mergeEnding]), and
    the object it returns when it returns ([mergeValue], [mergedObject]). *)

(** The value stored under a key that the source owns, when the result
    holds [t] there and the source holds [s]: [deepMerge(t, s)] when both
    are plain objects, [s] otherwise.  For two objects the loop leaves the
    keys that only the target owns, stores the source value under the
    keys that only the source owns and recurses on the shared ones. *)
Fixpoint mergeValue (t s : value) {struct t} : value :=
  match t, s with
  | VObj to, VObj so =>
      VObj (union_with (fun tv sv => Some (mergeValue tv sv)) to so)
  | _, _ => s
  end.

(** The object [deepMerge(target, source)] returns, when it returns. *)
Definition mergedObject (target source : gmap string value) : gmap string value :=
  union_with (fun tv sv => Some (mergeValue tv sv)) target source.

(** How a call of [deepMerge] ends. *)
Inductive ending : Type :=
| Returns
| ThrowsTypeError
| SetsPrototype.

(** The ending of a loop from the endings of its turns: an exception
    goes through whatever the other turns do. *)
Definition worse (a b : ending) : ending :=
  match a, b with
  | ThrowsTypeError, _ | _, ThrowsTypeError => ThrowsTypeError
  | SetsPrototype, _ | _, SetsPrototype => SetsPrototype
  | Returns, Returns => Returns
  end.

(** The ending of [deepMerge(t, s)] for the values found under a key that
    target and source share: the call is made when both are plain objects
    only.  The loop throws at once when the source owns [hasOwnProperty];
    it reaches the prototype of the result when the source owns
    [__proto__] and the copy of the target does not; and it makes the
    recursive calls for the shared keys. *)
Fixpoint mergeEnding (t s : value) {struct t} : ending :=
  match t, s with
  | VObj to, VObj so =>
      if bool_decide (is_Some (so !! "hasOwnProperty")) then ThrowsTypeError
      else
        worse (if bool_decide (is_Some (so !! "__proto__"))
                  && bool_decide (to !! "__proto__" = None)
               then SetsPrototype else Returns)
              (map_fold (fun _ => worse) Returns
                 (merge (fun tk sk =>
                           match tk, sk with
                           | Some tv, Some sv => Some (mergeEnding tv sv)
                           | _, _ => None
                           end) to so))
  | _, _ => Returns
  end.

(** [deepMerge(target, source)] on two plain objects.  There is no result
    ([None]) for a call that reaches the prototype of a result without
    throwing first: the objects of this development have no prototype of
    their own. *)
Definition deepMerge (target source : gmap string value)
  : option (completion (gmap string value)) :=
  match mergeEnding (VObj target) (VObj source) with
  | Returns => Some (Return (mergedObject target source))
  | ThrowsTypeError =>
      Some (Throw (TypeError "source.hasOwnProperty is not a function"))
  | SetsPrototype => None
  end.

(** [createConfig(userConfig)]. *)
Definition createConfig (userConfig : gmap string value)
  : option (completion (gmap string value)) :=
  deepMerge defaultConfig userConfig.

(** The configuration [createConfig(userConfig)] returns, when it
    returns. *)
Definition createdConfig (userConfig : gmap string value) : gmap string value :=
  mergedObject defaultConfig userConfig.

Section Validate.
Variable coerce : value -> number.

(** The [errors] array of [validateConfig], in push order. *)
Definition violations (config : gmap string value) : list string :=
  (if negb (truthy (prop config "videoUrl"))
   then ["videoUrl is required"] else [])
  ++ (if truthy (prop config "startOffset")
         && (lt_lit coerce (prop config "startOffset") (num 0)
             || negb (Number_isFinite (prop config "startOffset")))
      then ["startOffset must be a positive number"] else [])
  ++ (if truthy (prop config "volume")
         && (lt_lit coerce (prop config "volume") (num 0)
             || gt_lit coerce (prop config "volume") (num 1))
      then ["volume must be between 0 and 1"] else []).

(** [validateConfig(config)]. *)
Definition validateConfig (config : gmap string value)
  : completion (gmap string value) :=
  let errors := violations config in
  if (0 <? length errors)%nat
  then Throw (Error ("Configuration validation failed: " +:+ join ", " errors))
  else Return config.
End Validate.







End ConfigManager.

(* ===================================================================== *)
(** ** MediaFactory *)
(* ===================================================================== *)

Module MediaFactory.

(** [String.prototype.toLowerCase] on the ASCII letters.  URLs are ASCII;
    other code units are left as they are. *)
Definition lowerChar (c : ascii) : ascii :=
  let n := nat_of_ascii c in
  if (65 <=? n)%nat && (n <=? 90)%nat then ascii_of_nat (n + 32) else c.

Fixpoint toLowerCase (s : string) : string :=
  match s with
  | EmptyString => EmptyString
  | String c s' => String (lowerChar c) (toLowerCase s')
  end.

(** The rest of [s] after its prefix [pre], when [s] starts with [pre]. *)
Fixpoint stripPrefix (pre s : string) : option string :=
  match pre, s with
  | EmptyString, _ => Some s
  | String a pre', String b s' =>
      if Ascii.eqb a b then stripPrefix pre' s' else None
  | String _ _, EmptyString => None
  end.

(** [s.includes(sub)]. *)
Fixpoint includes (s sub : string) : bool :=
  match stripPrefix sub s with
  | Some _ => true
  | None =>
      match s with
      | EmptyString => false
      | String _ s' => includes s' sub
      end
  end.

(** The regular expression [\.(e1|...|en)(\?|$)] anchored at the start
    of [s]: a dot, one of the extensions, then a question mark or the end
    of the input. *)
Definition extensionHere (exts : list string) (s : string) : bool :=
  existsb (fun e =>
             match stripPrefix ("." +:+ e) s with
             | Some EmptyString => true
             | Some (String c _) => Ascii.eqb c "?"
             | None => false
             end) exts.

(** [s.match(/\.(e1|...|en)(\?|$)/)] is not null: the expression matches
    at some position of [s]. *)
Fixpoint matchesExtension (exts : list string) (s : string) : bool :=
  extensionHere exts s
  || match s with
     | EmptyString => false
     | String _ s' => matchesExtension exts s'
     end.

Definition audioExtensions : list string := ["mp3"; "wav"; "aac"; "ogg"].
Definition videoExtensions : list string := ["mp4"; "webm"; "flv"; "avi"; "mov"].

(** The URL-based part of [detectMediaType], on the lower-cased URL. *)
Definition detectFromUrl (urlLower : string) : string :=
  if includes urlLower ".m3u8" || includes urlLower "hls" then "hls"
  else if includes urlLower ".mpd" || includes urlLower "dash" then "dash"
  else if matchesExtension audioExtensions urlLower then "audio"
  else if matchesExtension videoExtensions urlLower then "video"
  else "video".

(** [detectMediaType(url, config)].  [url.toLowerCase()] throws a
    TypeError when [url] is not a string. *)
Definition detectMediaType (url : value) (config : gmap string value)
  : completion value :=
  if truthy (prop config "priority") then Return (prop config "priority")
  else
    match url with
    | VStr u => Return (VStr (detectFromUrl (toLowerCase u)))
    | _ => Throw (TypeError "url.toLowerCase is not a function")
    end.

(** The classes registered in [this.sourceTypes]. *)
Inductive SourceClass : Type :=
| VideoSourceClass
| AudioSourceClass
| HLSSourceClass
| Mp4SourceClass
| DASHSourceClass.

(** [this.sourceTypes] as the constructor fills it. *)
Definition sourceTypes : gmap string SourceClass :=
  list_to_map [ ("video", VideoSourceClass);
                ("audio", AudioSourceClass);
                ("hls", HLSSourceClass);
                ("mp4", Mp4SourceClass);
                ("dash", DASHSourceClass) ].

(** [this.sourceTypes.get(t)]: the keys are strings. *)
Definition getSourceClass (t : value) : option SourceClass :=
  match t with
  | VStr name => sourceTypes !! name
  | _ => None
  end.

(** The type [createMediaSource] settles on: [type || detectMediaType(...)]. *)
Definition detectedType (url type : value) (config : gmap string value)
  : completion value :=
  if truthy type then Return type else detectMediaType url config.

(** [createMediaSource({url, type, config})], up to the constructor call:
    the class to instantiate. *)
Definition createMediaSource (url type : value) (config : gmap string value)
  : completion SourceClass :=
  t ← detectedType url type config;
  match getSourceClass t with
  | Some c => Return c
  | None => Throw (Error "Unsupported media type")
  end.

(** The detection order as C3 words it: [.m3u8], [.mpd], an audio
    extension, a video extension, and video for the rest. *)
Definition detectAsStated (urlLower : string) : string :=
  if includes urlLower ".m3u8" then "hls"
  else if includes urlLower ".mpd" then "dash"
  else if matchesExtension audioExtensions urlLower then "audio"
  else if matchesExtension videoExtensions urlLower then "video"
  else "video".

End MediaFactory.

(* ===================================================================== *)
(** ** EventManager *)
(* ===================================================================== *)

Module EventManager.

(** A callback is a function object, known by its identity ([off] compares
    callbacks with [===]).  What it does when called is described by the
    calls it makes on the emitter it is subscribed to and by whether it
    ends by throwing.  Callbacks that re-enter [emit], [clear] or
    [clearAll] are outside the model. *)
Inductive call : Type :=
| CallOn (eventName : string) (callback : nat)
| CallOnce (eventName : string) (callback : nat)
| CallOff (eventName : string) (callback : nat).

Definition callEvent (c : call) : string :=
  match c with
  | CallOn e _ | CallOnce e _ | CallOff e _ => e
  end.

Record behaviour : Type := Behaviour {
  calls : list call;
  throws : bool
}.

(** An entry [{callback, context}] of a listener array. *)
Record listener : Type := Listener {
  callback : nat;
  context : value
}.

(** The two maps of an EventManager. *)
Record t : Type := Make {
  events : gmap string (list listener);
  onceEvents : gmap string (list listener)
}.

Definition new : t := Make ∅ ∅.

(** [on(eventName, callback, context)]. *)
Definition on (eventName : string) (cb : nat) (ctx : value) (m : t) : t :=
  Make (<[eventName := (default [] (events m !! eventName) ++ [Listener cb ctx])]>
          (events m))
       (onceEvents m).

(** [once(eventName, callback, context)]. *)
Definition once (eventName : string) (cb : nat) (ctx : value) (m : t) : t :=
  Make (events m)
       (<[eventName := (default [] (onceEvents m !! eventName) ++ [Listener cb ctx])]>
          (onceEvents m)).

(** [listeners.findIndex(listener => listener.callback === callback)]. *)
Fixpoint findIndex (cb : nat) (listeners : list listener) : option nat :=
  match listeners with
  | [] => None
  | l :: rest =>
      if Nat.eqb (callback l) cb then Some 0%nat
      else S <$> findIndex cb rest
  end.

(** [off(eventName, callback)]: splices the first matching entry out of
    the array of regular listeners. *)
Definition off (eventName : string) (cb : nat) (m : t) : t :=
  match events m !! eventName with
  | Some listeners =>
      match findIndex cb listeners with
      | Some index =>
          Make (<[eventName := delete index listeners]> (events m)) (onceEvents m)
      | None => m
      end
  | None => m
  end.

(** [clear(eventName)] and [clearAll()]. *)
Definition clear (eventName : string) (m : t) : t :=
  Make (delete eventName (events m)) (delete eventName (onceEvents m)).

Definition clearAll (m : t) : t := new.

(** One call [callback.call(context, data)] as the emitter sees it. *)
Record invocation : Type := Invocation {
  invokedCallback : nat;
  invokedThis : value;
  invokedData : value
}.

(** The emitter, the calls made so far and the lines sent to
    [console.error]. *)
Record world : Type := World {
  manager : t;
  invoked : list invocation;
  console : list string
}.

(** A statement: a new world, and the exception it ended with, if any. *)
Definition stmt : Type := world -> world * option exn.

Definition skip : stmt := fun w => (w, None).

Definition seq (a b : stmt) : stmt :=
  fun w => match a w with
           | (w', None) => b w'
           | abrupt => abrupt
           end.

(** [try { body } catch (error) { handler }]. *)
Definition tryCatch (body : stmt) (handler : exn -> stmt) : stmt :=
  fun w => match body w with
           | (w', Some e) => handler e w'
           | normal => normal
           end.

Definition consoleError (line : string) : stmt :=
  fun w => (World (manager w) (invoked w) (console w ++ [line]), None).

Definition performCall (c : call) (m : t) : t :=
  match c with
  | CallOn e cb => on e cb VNull m
  | CallOnce e cb => once e cb VNull m
  | CallOff e cb => off e cb m
  end.

(** [array.forEach(f)] on an array that [f] may change while it runs: the
    length is read once, and an index that is no longer present when it
    is reached is skipped. *)
Fixpoint forEachFrom (array : world -> list listener)
    (f : listener -> stmt) (k remaining : nat) : stmt :=
  fun w =>
    match remaining with
    | O => (w, None)
    | S r =>
        match array w !! k with
        | Some l =>
            match f l w with
            | (w', None) => forEachFrom array f (S k) r w'
            | abrupt => abrupt
            end
        | None => forEachFrom array f (S k) r w
        end
    end.

Definition forEach (array : world -> list listener) (f : listener -> stmt) : stmt :=
  fun w => forEachFrom array f 0 (length (array w)) w.

Section Emit.
(** What each callback does when called. *)
Variable env : nat -> behaviour.

(** [callback.call(context, data)]. *)
Definition invoke (l : listener) (data : value) : stmt :=
  fun w =>
    let b := env (callback l) in
    (World (foldl (fun m c => performCall c m) (manager w) (calls b))
           (invoked w ++ [Invocation (callback l) (context l) data])
           (console w),
     if throws b then Some (Error "thrown by the listener") else None).

(** The array [this.events.get(eventName)], which [on] and [off] called
    from a listener change in place. *)
Definition regularListeners (eventName : string) (w : world) : list listener :=
  default [] (events (manager w) !! eventName).

Definition onceListeners (eventName : string) (w : world) : list listener :=
  default [] (onceEvents (manager w) !! eventName).

Definition deleteOnce (eventName : string) : stmt :=
  fun w => (World (Make (events (manager w))
                        (delete eventName (onceEvents (manager w))))
                  (invoked w) (console w), None).

(** [emit(eventName, data)]. *)
Definition emit (eventName : string) (data : value) : stmt :=
  seq
    (fun w =>
       if decide (is_Some (events (manager w) !! eventName))
       then forEach (regularListeners eventName)
              (fun l => tryCatch (invoke l data)
                 (fun _ => consoleError ("Error in event listener for " +:+ eventName)))
              w
       else skip w)
    (fun w =>
       if decide (is_Some (onceEvents (manager w) !! eventName))
       then seq
              (forEach (onceListeners eventName)
                 (fun l => tryCatch (invoke l data)
                    (fun _ => consoleError
                                ("Error in once event listener for " +:+ eventName))))
              (deleteOnce eventName)
              w
       else skip w).
End Emit.

(** The callbacks called, in call order. *)
Definition calledCallbacks (w : world) : list nat :=
  map invokedCallback (invoked w).

(** A listener that, when called, makes no [on], [once] or [off] call for
    the event [eventName]. *)
Definition leavesAlone (env : nat -> behaviour) (eventName : string)
    (l : listener) : Prop :=
  Forall (fun c => callEvent c <> eventName) (calls (env (callback l))).

(** The listeners of a list whose callback throws. *)
Definition throwing (env : nat -> behaviour) (ls : list listener) : list listener :=
  List.filter (fun l => throws (env (callback l))) ls.

(** The call [emit] makes to a listener. *)
Definition callOf (data : value) (l : listener) : invocation :=
  Invocation (callback l) (context l) data.

(** The two listener arrays of the event are in [w] what they are in
    [w0]. *)
Definition sameArrays (eventName : string) (w0 w : world) : Prop :=
  events (manager w) !! eventName = events (manager w0) !! eventName
  /\ onceEvents (manager w) !! eventName = onceEvents (manager w0) !! eventName.

End EventManager.

(* ===================================================================== *)
(** ** VideoSource *)
(* ===================================================================== *)

Module VideoSource.

(** The attributes of the media element ([<video>] or [<audio>]) that the
    source reads and writes. *)
Record MediaElement : Type := MkElement {
  src : value;
  volume : number;
  muted : bool;
  paused : bool;
  currentTime : number;
  playbackRate : number
}.

(** Assignments to attributes of the platform's media element.  A [double]
    attribute refuses NaN and the infinities with a TypeError, and
    [volume] refuses a value outside [0, 1] with an IndexSizeError (HTML
    standard, media elements). *)
Definition assignVolume (v : number) (el : MediaElement) : completion MediaElement :=
  if negb (isFinite v)
  then Throw (TypeError "The provided double value is non-finite.")
  else if lessThan v (num 0) || greaterThan v (num 1)
  then Throw (DOMException "IndexSizeError")
  else Return (MkElement (src el) v (muted el) (paused el)
                 (currentTime el) (playbackRate el)).

Definition assignCurrentTime (v : number) (el : MediaElement) : completion MediaElement :=
  if negb (isFinite v)
  then Throw (TypeError "The provided double value is non-finite.")
  else Return (MkElement (src el) (volume el) (muted el) (paused el)
                 v (playbackRate el)).

Definition assignPlaybackRate (v : number) (el : MediaElement) : completion MediaElement :=
  if negb (isFinite v)
  then Throw (TypeError "The provided double value is non-finite.")
  else Return (MkElement (src el) (volume el) (muted el) (paused el)
                 (currentTime el) v).

Definition assignMuted (b : bool) (el : MediaElement) : MediaElement :=
  MkElement (src el) (volume el) b (paused el) (currentTime el) (playbackRate el).

Definition assignSrc (u : value) (el : MediaElement) : MediaElement :=
  MkElement u (volume el) (muted el) (paused el) (currentTime el) (playbackRate el).

Definition assignPaused (b : bool) (el : MediaElement) : MediaElement :=
  MkElement (src el) (volume el) (muted el) b (currentTime el) (playbackRate el).

(** A media source object.  [sourceId] is the identity of the object,
    given by the order of construction; [listeners] are the maps it
    inherits from EventManager. *)
Record t : Type := Make {
  sourceId : nat;
  sourceClass : MediaFactory.SourceClass;
  url : value;
  config : gmap string value;
  videoElement : option MediaElement;
  isLoaded : bool;
  listeners : EventManager.t
}.

(** [new SourceClass({url, config})]. *)
Definition new (id : nat) (c : MediaFactory.SourceClass) (u : value)
    (cfg : gmap string value) : t :=
  Make id c u cfg None false EventManager.new.

Definition withElement (el : option MediaElement) (s : t) : t :=
  Make (sourceId s) (sourceClass s) (url s) (config s) el (isLoaded s) (listeners s).

(** [load()] resolved: the element found under the container is kept and
    given the URL, and [isLoaded] is set. *)
Definition loaded (el : MediaElement) (s : t) : t :=
  Make (sourceId s) (sourceClass s) (url s) (config s)
       (Some (assignSrc (url s) el)) true (listeners s).

(** [play()]: [granted] tells whether the platform resolves the promise of
    [videoElement.play()]. *)
Definition play (granted : bool) (s : t) : completion t :=
  match videoElement s with
  | None => Throw (Error "Video not loaded")
  | Some el =>
      if granted then Return (withElement (Some (assignPaused false el)) s)
      else Throw (DOMException "NotAllowedError")
  end.

(** [pause()]. *)
Definition pause (s : t) : completion t :=
  match videoElement s with
  | Some el => Return (withElement (Some (assignPaused true el)) s)
  | None => Return s
  end.

(** [seek(time)]. *)
Definition seek (time : number) (s : t) : completion t :=
  match videoElement s with
  | Some el => el' ← assignCurrentTime time el; Return (withElement (Some el') s)
  | None => Return s
  end.

(** [setVolume(volume)]. *)
Definition setVolume (v : number) (s : t) : completion t :=
  match videoElement s with
  | Some el =>
      el' ← assignVolume (Math_max (num 0) (Math_min (num 1) v)) el;
      Return (withElement (Some el') s)
  | None => Return s
  end.

(** [setMuted(muted)]. *)
Definition setMuted (b : bool) (s : t) : completion t :=
  match videoElement s with
  | Some el => Return (withElement (Some (assignMuted b el)) s)
  | None => Return s
  end.

(** [setPlaybackRate(rate)]. *)
Definition setPlaybackRate (rate : number) (s : t) : completion t :=
  match videoElement s with
  | Some el => el' ← assignPlaybackRate rate el; Return (withElement (Some el') s)
  | None => Return s
  end.

(** [loadUrl(url)]. *)
Definition loadUrl (u : value) (s : t) : completion t :=
  Return (Make (sourceId s) (sourceClass s) u (config s)
            (assignSrc u <$> videoElement s) (isLoaded s) (listeners s)).

(** [destroy()]. *)
Definition destroy (s : t) : t :=
  Make (sourceId s) (sourceClass s) (url s) (config s) None false
       (EventManager.clearAll (listeners s)).

End VideoSource.

(* ===================================================================== *)
(** ** AnalyticsManager *)
(* ===================================================================== *)

Module AnalyticsManager.

(** A tracked event: [{eventType, playerId, timestamp, sessionId, ...data,
    ...context}].  [payload] holds the fields of [data]; of the context
    only the fields copied from the configuration are kept (the others are
    read from [navigator] and [window]). *)
Record EventData : Type := MkEvent {
  eventType : string;
  playerId : string;
  timestamp : Z;
  sessionId : option string;
  payload : list (string * value);
  context : list (string * value)
}.

(** An entry of [this.sessionData]. *)
Record Session : Type := MkSession {
  sessionIdOf : string;
  startTime : Z;
  totalPlayTime : Z;
  seekCount : nat;
  qualityChanges : nat;
  maxProgress : number;
  events : list EventData;
  lastPlayTime : option Z
}.

(** The manager: its fields, the lines written to the console and the
    batches handed to [fetch]. *)
Record t : Type := Make {
  config : option (gmap string value);
  viewedThresholds : gset string;
  sessionData : gmap string Session;
  trackingQueue : list EventData;
  isTracking : bool;
  console : list string;
  posted : list (list EventData)
}.

Definition new : t := Make None ∅ ∅ [] false [] [].

(** [this.config?.enabled] is truthy. *)
Definition enabled (m : t) : bool :=
  match config m with
  | Some cfg => truthy (prop cfg "enabled")
  | None => false
  end.

(** [this.config.k]. *)
Definition configProp (m : t) (k : string) : value :=
  match config m with
  | Some cfg => prop cfg k
  | None => VUndefined
  end.

(** [init(playerId, config)]; [now] is [Date.now()] and [sid] the
    generated session identifier. *)
Definition init (pid : string) (cfg : gmap string value) (now : Z) (sid : string)
    (m : t) : t :=
  if negb (truthy (prop cfg "enabled"))
  then Make (Some cfg) (viewedThresholds m) (sessionData m) (trackingQueue m)
            (isTracking m) (console m) (posted m)
  else Make (Some cfg) (viewedThresholds m)
            (<[pid := MkSession sid now 0 0 0 (num 0) [] None]> (sessionData m))
            (trackingQueue m) true (console m) (posted m).

(** [updateSessionStats(eventType, data, session)]. *)
Definition updateSessionStats (type : string) (now : Z) (s : Session) : Session :=
  if String.eqb type "seek" then
    MkSession (sessionIdOf s) (startTime s) (totalPlayTime s) (S (seekCount s))
      (qualityChanges s) (maxProgress s) (events s) (lastPlayTime s)
  else if String.eqb type "quality_change" then
    MkSession (sessionIdOf s) (startTime s) (totalPlayTime s) (seekCount s)
      (S (qualityChanges s)) (maxProgress s) (events s) (lastPlayTime s)
  else if String.eqb type "play" then
    MkSession (sessionIdOf s) (startTime s) (totalPlayTime s) (seekCount s)
      (qualityChanges s) (maxProgress s) (events s) (Some now)
  else if String.eqb type "pause" then
    match lastPlayTime s with
    | Some t0 =>
        if Z.eqb t0 0 then s
        else MkSession (sessionIdOf s) (startTime s)
               (totalPlayTime s + (now - t0)) (seekCount s)
               (qualityChanges s) (maxProgress s) (events s) (lastPlayTime s)
    | None => s
    end
  else s.

Definition pushEvent (e : EventData) (s : Session) : Session :=
  MkSession (sessionIdOf s) (startTime s) (totalPlayTime s) (seekCount s)
    (qualityChanges s) (maxProgress s) (events s ++ [e]) (lastPlayTime s).

Definition contextData (m : t) : list (string * value) :=
  map (fun k => (k, configProp m k))
      ["cdn"; "isp"; "geo"; "videoId"; "playerSource"].

(** [track(eventType, data)], with [data.playerId = pid]. *)
Definition track (type : string) (pid : string) (data : list (string * value))
    (now : Z) (m : t) : t :=
  if negb (enabled m) then m
  else
    let e := MkEvent type pid now (sessionIdOf <$> sessionData m !! pid)
               data (contextData m) in
    Make (config m) (viewedThresholds m)
         (match sessionData m !! pid with
          | Some s => <[pid := updateSessionStats type now (pushEvent e s)]>
                        (sessionData m)
          | None => sessionData m
          end)
         (trackingQueue m ++ [e]) (isTracking m) (console m) (posted m).

Definition withMaxProgress (p : number) (s : Session) : Session :=
  MkSession (sessionIdOf s) (startTime s) (totalPlayTime s) (seekCount s)
    (qualityChanges s) p (events s) (lastPlayTime s).

Section Progress.
Variable coerce : value -> number.

(** [progress >= this.config.viewedThreshold]. *)
Definition reachesThreshold (m : t) (progress : number) : bool :=
  atLeast progress (ToNumber coerce (configProp m "viewedThreshold")).

(** [trackProgress(playerId, currentTime, duration)]. *)
Definition trackProgress (pid : string) (currentTime duration : number)
    (now : Z) (m : t) : t :=
  if negb (enabled m) || negb (truthy (VNum duration)) then m
  else
    let progress := div currentTime duration in
    match sessionData m !! pid with
    | Some s =>
        let m1 :=
          Make (config m) (viewedThresholds m)
               (<[pid := withMaxProgress (Math_max (maxProgress s) progress) s]>
                  (sessionData m))
               (trackingQueue m) (isTracking m) (console m) (posted m) in
        if reachesThreshold m progress
           && negb (bool_decide (pid ∈ viewedThresholds m))
        then
          track "viewed_threshold_reached" pid
            [ ("playerId", VStr pid);
              ("threshold", configProp m "viewedThreshold");
              ("progress", VNum progress);
              ("currentTime", VNum currentTime);
              ("duration", VNum duration) ]
            now
            (Make (config m1) ({[pid]} ∪ viewedThresholds m1) (sessionData m1)
                  (trackingQueue m1) (isTracking m1) (console m1) (posted m1))
        else m1
    | None => m
    end.

(** One call of [trackProgress]. *)
Record progressCall : Type := ProgressCall {
  callPlayer : string;
  callTime : number;
  callDuration : number;
  callNow : Z
}.

Definition trackProgressCall (m : t) (c : progressCall) : t :=
  trackProgress (callPlayer c) (callTime c) (callDuration c) (callNow c) m.

(** The call comes with a usable duration and a progress fraction at or
    above the configured threshold. *)
Definition reaches (m : t) (c : progressCall) : bool :=
  truthy (VNum (callDuration c))
  && atLeast (div (callTime c) (callDuration c))
             (ToNumber coerce (configProp m "viewedThreshold")).

(** The first call for [pid] that reaches the threshold, if there is
    one. *)
Definition firstReaching (m : t) (pid : string) (calls : list progressCall)
  : option progressCall :=
  List.find (fun c => bool_decide (callPlayer c = pid) && reaches m c) calls.
End Progress.

(** The event that [track] builds when [trackProgress] calls it at [c]:
    the type, the player, the time of the call, the identifier of the
    player's session, the data handed over and the context read from the
    configuration. *)
Definition thresholdEvent (m : t) (c : progressCall) : EventData :=
  MkEvent "viewed_threshold_reached" (callPlayer c) (callNow c)
    (sessionIdOf <$> sessionData m !! callPlayer c)
    [ ("playerId", VStr (callPlayer c));
      ("threshold", configProp m "viewedThreshold");
      ("progress", VNum (div (callTime c) (callDuration c)));
      ("currentTime", VNum (callTime c));
      ("duration", VNum (callDuration c)) ]
    (contextData m).

(** The [viewed_threshold_reached] events recorded in the session of a
    player. *)
Definition isViewedEvent (e : EventData) : bool :=
  String.eqb (eventType e) "viewed_threshold_reached".

Definition viewedEvents (pid : string) (m : t) : list EventData :=
  match sessionData m !! pid with
  | Some s => List.filter isViewedEvent (events s)
  | None => []
  end.

(** The [viewed_threshold_reached] events of a player among some events
    of the tracking queue. *)
Definition viewedOf (pid : string) (l : list EventData) : list EventData :=
  List.filter (fun e => isViewedEvent e && String.eqb (playerId e) pid) l.

(** *** The flush loop *)

(** How [fetch] ends: a response, with its [ok] flag and status, or a
    rejected promise. *)
Inductive fetchOutcome : Type :=
| Responded (ok : bool) (status : nat)
| Rejected.

Definition stmt : Type := t -> t * option exn.

Definition seq (a b : stmt) : stmt :=
  fun m => match a m with
           | (m', None) => b m'
           | abrupt => abrupt
           end.

Definition tryCatch (body : stmt) (handler : exn -> stmt) : stmt :=
  fun m => match body m with
           | (m', Some e) => handler e m'
           | normal => normal
           end.

Definition log (line : string) : stmt :=
  fun m => (Make (config m) (viewedThresholds m) (sessionData m)
              (trackingQueue m) (isTracking m) (console m ++ [line]) (posted m),
            None).

(** [await fetch(url, {method: 'POST', body: ...})]: the request leaves
    with the batch, other code runs on the manager ([during]: calls of
    [track], typically), and then the promise settles. *)
Definition fetch (o : fetchOutcome) (during : t -> t) (batch : list EventData)
  : stmt :=
  fun m =>
    (during (Make (config m) (viewedThresholds m) (sessionData m)
               (trackingQueue m) (isTracking m) (console m) (posted m ++ [batch])),
     match o with
     | Responded _ _ => None
     | Rejected => Some (TypeError "Failed to fetch")
     end).

(** [this.trackingQueue.unshift(...events)]. *)
Definition unshift (batch : list EventData) : stmt :=
  fun m => (Make (config m) (viewedThresholds m) (sessionData m)
              (batch ++ trackingQueue m) (isTracking m) (console m) (posted m),
            None).

(** [sendEvents(events)]. *)
Definition sendEvents (o : fetchOutcome) (during : t -> t)
    (batch : list EventData) : stmt :=
  fun m =>
    match config m with
    | None => (m, Some (TypeError "Cannot read properties of null"))
    | Some cfg =>
        if negb (truthy (prop cfg "trackingUrl")) then (m, None)
        else
          tryCatch
            (seq (fetch o during batch)
                 (match o with
                  | Responded false _ => log "Analytics tracking failed:"
                  | _ => fun m => (m, None)
                  end))
            (fun _ => seq (log "Analytics tracking error:") (unshift batch))
            m
    end.

(** [this.trackingQueue.splice(0, 10)]: the batch taken and the manager
    without it. *)
Definition takeBatch (m : t) : list EventData * t :=
  (take 10 (trackingQueue m),
   Make (config m) (viewedThresholds m) (sessionData m)
        (drop 10 (trackingQueue m)) (isTracking m) (console m) (posted m)).

(** One turn of the loop of [processTrackingQueue], up to the sleep. *)
Definition cycle (o : fetchOutcome) (during : t -> t) : stmt :=
  fun m =>
    if negb (isTracking m) then (m, None)
    else
      match trackingQueue m with
      | [] => (m, None)
      | _ :: _ =>
          let '(batch, m1) := takeBatch m in
          sendEvents o during batch m1
      end.

(** Nothing else happens during the send. *)
Definition idle : t -> t := fun m => m.

(** Code that runs during a send and only tracks events: it appends
    [arrived] to the queue and leaves the configuration and the loop
    flag alone. *)
Definition onlyTracks (during : t -> t) (arrived : list EventData) : Prop :=
  forall m, config (during m) = config m
            /\ isTracking (during m) = isTracking m
            /\ trackingQueue (during m) = trackingQueue m ++ arrived.

End AnalyticsManager.

(* ===================================================================== *)
(** ** UniversalPlayer and PlayerInstance *)
(* ===================================================================== *)

Module Player.

(** [this.state] of a PlayerInstance. *)
Record PlaybackState : Type := MkState {
  currentTime : number;
  duration : number;
  volume : number;
  muted : bool;
  playing : bool;
  buffering : bool;
  fullscreen : bool;
  pip : bool;
  quality : value;
  playbackRate : number;
  seeking : bool
}.

Definition initialState : PlaybackState :=
  MkState (num 0) (num 0) (num 1) false false false false false
          (VStr "auto") (num 1) false.

(** The calls an instance makes on its collaborators (event manager,
    analytics manager, UI manager, console, media source constructors),
    in call order.  The UI is taken as built, so that its update methods
    return. *)
Inductive effect : Type :=
| Emitted (eventName : string)
| Tracked (eventType : string)
| TrackedProgress (currentTime duration : number)
| UpdatePlayButton (isPlaying : bool)
| UpdateProgress (currentTime duration : number)
| UpdateVolume (volume : number) (muted : bool)
| ShowBuffering (show : bool)
| ConsoleError (message : string)
| Constructed (sourceId : nat).

Record PlayerInstance : Type := MkInstance {
  id : string;
  config : gmap string value;
  state : PlaybackState;
  mediaSource : option VideoSource.t;
  effects : list effect
}.

(** A statement of a method body: the instance after it and the exception
    it ended with, if any. *)
Definition stmt : Type := PlayerInstance -> PlayerInstance * option exn.

Definition seq (a b : stmt) : stmt :=
  fun i => match a i with
           | (i', None) => b i'
           | abrupt => abrupt
           end.

Definition tryCatch (body : stmt) (handler : exn -> stmt) : stmt :=
  fun i => match body i with
           | (i', Some e) => handler e i'
           | normal => normal
           end.

Definition when (c : PlayerInstance -> bool) (a : stmt) : stmt :=
  fun i => if c i then a i else (i, None).

Notation "a ;; b" := (seq a b) (at level 100, b at level 200, right associativity).

(** [this.state = f(this.state)]. *)
Definition assign (f : PlaybackState -> PlaybackState) : stmt :=
  fun i => (MkInstance (id i) (config i) (f (state i)) (mediaSource i) (effects i),
            None).

(** A call on a collaborator. *)
Definition does (e : PlayerInstance -> effect) : stmt :=
  fun i => (MkInstance (id i) (config i) (state i) (mediaSource i)
              (effects i ++ [e i]), None).

(** [this.mediaSource.m(...)]: a TypeError when [this.mediaSource] is
    undefined. *)
Definition onSource (m : VideoSource.t -> completion VideoSource.t) : stmt :=
  fun i =>
    match mediaSource i with
    | None => (i, Some (TypeError "Cannot read properties of undefined"))
    | Some s =>
        match m s with
        | Return s' =>
            (MkInstance (id i) (config i) (state i) (Some s') (effects i), None)
        | Throw e => (i, Some e)
        end
    end.

Definition setCurrentTime v (s : PlaybackState) : PlaybackState :=
  MkState v (duration s) (volume s) (muted s) (playing s) (buffering s)
          (fullscreen s) (pip s) (quality s) (playbackRate s) (seeking s).
Definition setDuration v (s : PlaybackState) : PlaybackState :=
  MkState (currentTime s) v (volume s) (muted s) (playing s) (buffering s)
          (fullscreen s) (pip s) (quality s) (playbackRate s) (seeking s).
Definition setVolumeField v (s : PlaybackState) : PlaybackState :=
  MkState (currentTime s) (duration s) v (muted s) (playing s) (buffering s)
          (fullscreen s) (pip s) (quality s) (playbackRate s) (seeking s).
Definition setMuted v (s : PlaybackState) : PlaybackState :=
  MkState (currentTime s) (duration s) (volume s) v (playing s) (buffering s)
          (fullscreen s) (pip s) (quality s) (playbackRate s) (seeking s).
Definition setPlaying v (s : PlaybackState) : PlaybackState :=
  MkState (currentTime s) (duration s) (volume s) (muted s) v (buffering s)
          (fullscreen s) (pip s) (quality s) (playbackRate s) (seeking s).
Definition setPlaybackRateField v (s : PlaybackState) : PlaybackState :=
  MkState (currentTime s) (duration s) (volume s) (muted s) (playing s)
          (buffering s) (fullscreen s) (pip s) (quality s) v (seeking s).
Definition setSeeking v (s : PlaybackState) : PlaybackState :=
  MkState (currentTime s) (duration s) (volume s) (muted s) (playing s)
          (buffering s) (fullscreen s) (pip s) (quality s) (playbackRate s) v.

(** *** Public methods *)

(** [play()], resumed after [await this.mediaSource.play()]. *)
Definition play (granted : bool) : stmt :=
  tryCatch
    (onSource (VideoSource.play granted) ;;
     assign (setPlaying true) ;;
     does (fun _ => Tracked "play"))
    (fun _ => does (fun _ => ConsoleError "Play failed:") ;;
              does (fun _ => Emitted "player:error")).

Definition pause : stmt :=
  onSource VideoSource.pause ;;
  assign (setPlaying false) ;;
  does (fun _ => Tracked "pause").

Definition seek (time : number) : stmt :=
  onSource (VideoSource.seek time) ;;
  does (fun _ => Tracked "seek").

Definition setVolume (v : number) : stmt :=
  onSource (VideoSource.setVolume v) ;;
  assign (setVolumeField v) ;;
  assign (setMuted (strictEquals v (num 0))).

Definition toggleMute : stmt :=
  fun i =>
    let newMuted := negb (muted (state i)) in
    (onSource (VideoSource.setMuted newMuted) ;;
     assign (setMuted newMuted)) i.

Definition setPlaybackRate (rate : number) : stmt :=
  onSource (VideoSource.setPlaybackRate rate) ;;
  assign (setPlaybackRateField rate).

Definition loadVideo (u : value) : stmt :=
  onSource (VideoSource.loadUrl u).

(** *** Handlers of the media source's events *)

Definition handlePlay : stmt :=
  assign (setPlaying true) ;;
  does (fun _ => UpdatePlayButton true) ;;
  does (fun _ => Emitted "player:play").

Definition handlePause : stmt :=
  assign (setPlaying false) ;;
  does (fun _ => UpdatePlayButton false) ;;
  does (fun _ => Emitted "player:pause").

(** [this.config.nextVideo && this.config.nextVideo.url] is truthy. *)
Definition hasNextVideo (i : PlayerInstance) : bool :=
  match prop (config i) "nextVideo" with
  | VObj o => truthy (prop o "url")
  | _ => false
  end.

Definition nextVideoUrl (i : PlayerInstance) : value :=
  match prop (config i) "nextVideo" with
  | VObj o => prop o "url"
  | _ => VUndefined
  end.

Definition handleEnded : stmt :=
  assign (setPlaying false) ;;
  does (fun _ => UpdatePlayButton false) ;;
  does (fun _ => Emitted "player:ended") ;;
  does (fun _ => Tracked "ended") ;;
  when hasNextVideo (fun i => loadVideo (nextVideoUrl i) i).

Definition handleTimeUpdate (t d : number) : stmt :=
  assign (setCurrentTime t) ;;
  assign (setDuration d) ;;
  does (fun _ => UpdateProgress t d) ;;
  does (fun _ => TrackedProgress t d).

Definition handleVolumeChange (v : number) (m : bool) : stmt :=
  assign (setVolumeField v) ;;
  assign (setMuted m) ;;
  does (fun _ => UpdateVolume v m).

Definition handleSeeking : stmt :=
  assign (setSeeking true) ;; does (fun _ => ShowBuffering true).

Definition handleSeeked : stmt :=
  assign (setSeeking false) ;; does (fun _ => ShowBuffering false).

Definition handleError : stmt :=
  does (fun _ => ConsoleError "Media error:") ;;
  does (fun _ => Emitted "player:error").

(** *** Construction *)

(** The part of the constructor and of [init()] that runs before the
    first [await]: the state, then the media source asked from the
    factory; a throw of the factory is caught by [init()] and reported. *)
Definition newInstance (playerId : string) (cfg : gmap string value)
    (freshSourceId : nat) : PlayerInstance :=
  match MediaFactory.createMediaSource
          (prop cfg "videoUrl") (prop cfg "mediaType") cfg with
  | Return c =>
      MkInstance playerId cfg initialState
        (Some (VideoSource.new freshSourceId c (prop cfg "videoUrl") cfg))
        [Constructed freshSourceId]
  | Throw _ =>
      MkInstance playerId cfg initialState None
        [ConsoleError "Player initialization failed:"; Emitted "player:error"]
  end.

(** [UniversalPlayer.init(container, config)].  [containerElement] is the
    container after the selector lookup; [playerId] is the generated
    identifier.  An exception of [createConfig] goes through to the
    caller, and where [createConfig] has no result neither has [init]. *)
Definition init (containerElement : value) (userConfig : gmap string value)
    (playerId : string) (freshSourceId : nat)
  : option (completion PlayerInstance) :=
  if negb (truthy containerElement)
  then Some (Throw (Error "Container not found"))
  else
    match ConfigManager.createConfig
            (<["container" := containerElement]> userConfig) with
    | Some (Return playerConfig) =>
        Some (Return (newInstance playerId playerConfig freshSourceId))
    | Some (Throw e) => Some (Throw e)
    | None => None
    end.

(** *** Runs *)

(** What happens to an instance: an event of its media source, with the
    payload the source extracts from the element, or a call of a public
    method.  [setQuality], [toggleFullscreen] and [togglePictureInPicture]
    are left out; they write [quality], [fullscreen] and [pip] only. *)
Inductive action : Type :=
| SourceLoaded (el : VideoSource.MediaElement)
| OnPlay
| OnPause
| OnEnded
| OnTimeUpdate (currentTime duration : number)
| OnVolumeChange (volume : number) (muted : bool)
| OnSeeking
| OnSeeked
| OnError
| CallPlay (granted : bool)
| CallPause
| CallSeek (time : number)
| CallSetVolume (volume : number)
| CallToggleMute
| CallSetPlaybackRate (rate : number)
| CallLoadVideo (url : value).

Definition perform (a : action) : stmt :=
  match a with
  | SourceLoaded el =>
      fun i => (MkInstance (id i) (config i) (state i)
                  (VideoSource.loaded el <$> mediaSource i) (effects i), None)
  | OnPlay => handlePlay
  | OnPause => handlePause
  | OnEnded => handleEnded
  | OnTimeUpdate t d => handleTimeUpdate t d
  | OnVolumeChange v m => handleVolumeChange v m
  | OnSeeking => handleSeeking
  | OnSeeked => handleSeeked
  | OnError => handleError
  | CallPlay granted => play granted
  | CallPause => pause
  | CallSeek time => seek time
  | CallSetVolume v => setVolume v
  | CallToggleMute => toggleMute
  | CallSetPlaybackRate rate => setPlaybackRate rate
  | CallLoadVideo u => loadVideo u
  end.

(** A run: each action in turn.  An exception ends the action that threw
    it (the caller of the method, or the emitter's [try]/[catch] around a
    handler, sees it); the instance goes on from where the action left
    it. *)
Definition run (actions : list action) (i : PlayerInstance) : PlayerInstance :=
  foldl (fun i a => fst (perform a i)) i actions.

(** The instance has a media source, and the source has its element. *)
Definition sourceReady (i : PlayerInstance) : bool :=
  match mediaSource i with
  | Some s => bool_decide (is_Some (VideoSource.videoElement s))
  | None => false
  end.

(** The media sources constructed for an instance so far. *)
Definition constructed (i : PlayerInstance) : list nat :=
  omap (fun e => match e with Constructed n => Some n | _ => None end)
       (effects i).

(** The last event among play, pause and ended that the media source
    sent in a run, if it sent one. *)
Definition lastPlaybackEvent (actions : list action) : option action :=
  last (List.filter (fun a => match a with
                              | OnPlay | OnPause | OnEnded => true
                              | _ => false
                              end) actions).

(** What an action writes to [state.playing] on an instance that has a
    media source, if it writes it. *)
Definition writesPlaying (a : action) : option bool :=
  match a with
  | OnPlay | CallPlay true => Some true
  | OnPause | OnEnded | CallPause => Some false
  | _ => None
  end.

End Player.

(* ===================================================================== *)
(** * Theorems *)
(* ===================================================================== *)

Import ConfigManager.

(** ** The model on concrete inputs *)

Example div_progress : div (num 30) (num 120) = Fin (1 # 4).
Proof. vm_compute. reflexivity. Qed.

(** The double written [0.8] lies a little above four fifths, and so does
    the quotient [8 / 10]; the quotient of the double [2.4] by [3] is the
    double just below. *)
Example div_rounds :
  double (8 # 10) = Fin (3602879701896397 # 4503599627370496)
  /\ div (num 8) (num 10) = double (8 # 10)
  /\ div (double (24 # 10)) (num 3) = Fin (7205759403792793 # 9007199254740992)
  /\ lessThan (div (double (24 # 10)) (num 3)) (double (8 # 10)) = true.
Proof. split; [|split; [|split]]; vm_compute; reflexivity. Qed.

(** Rounding at the ends of the range: the largest double, the overflow
    threshold, the smallest subnormal and half of it. *)
Example roundDouble_range :
  roundDouble (inject_Z (2 ^ 1024 - 2 ^ 970 - 1)) = Fin (inject_Z (2 ^ 1024 - 2 ^ 971))
  /\ roundDouble (inject_Z (2 ^ 1024 - 2 ^ 970)) = PosInf
  /\ roundDouble (- inject_Z (2 ^ 1024)) = NegInf
  /\ roundDouble (3 # Z.to_pos (2 ^ 1075)) = Fin (1 # Z.to_pos (2 ^ 1073))
  /\ roundDouble (1 # Z.to_pos (2 ^ 1075)) = Fin 0
  /\ roundDouble (inject_Z (2 ^ 53 + 1)) = Fin (inject_Z (2 ^ 53)).
Proof.
  split; [|split; [|split; [|split; [|split]]]]; vm_compute; reflexivity.
 Qed.

(** [roundHalfEven n d] is an integer nearest to [n / d], and the even one
    when two integers are equally near. *)
Lemma roundHalfEven_nearest (n d : Z) :
  (0 < d)%Z ->
  let m := roundHalfEven n d in
  (2 * Z.abs (m * d - n) <= d)%Z
  /\ ((2 * Z.abs (m * d - n))%Z = d -> Z.even m = true).
Proof.
  intros Hd. unfold roundHalfEven.
  pose proof (Z.div_mod n d ltac:(lia)) as Hn.
  pose proof (Z.mod_pos_bound n d Hd) as Hr.
  set (q := (n / d)%Z) in *. set (r := (n mod d)%Z) in *.
  destruct (Z.ltb_spec d (2 * r)) as [Hhigh|Hlow]; simpl.
  - split; [lia|]. intros Htie. lia.
  - destruct (Z.eqb_spec (2 * r) d) as [Htie|Hne].
    + destruct (Z.even q) eqn:Heven; simpl.
      * split; [lia|done].
      * split; [lia|]. intros _.
        rewrite Z.even_add, Heven. reflexivity.
    + split; [lia|]. intros Htie. lia.
Qed.

Example div_by_zero :
  div (num 1) (num 0) = PosInf /\ div (num 0) (num 0) = NaN.
Proof. by split. Qed.

Example min_max_nan :
  Math_max (num 0) (Math_min (num 1) NaN) = NaN.
Proof. reflexivity. Qed.

Example falsy_values :
  map truthy [VUndefined; VNull; VBool false; VNum NaN; VNum (num 0); VStr ""]
  = [false; false; false; false; false; false]
  /\ map truthy [VStr "0"; VNum (num (-1)); VArr []; VObj ∅; VNum NegInf]
     = [true; true; true; true; true].
Proof. by split. Qed.

Example deepMerge_nested :
  deepMerge
    (obj [("a", VNum (num 1));
          ("b", VObj (obj [("c", VNum (num 2)); ("d", VNum (num 3))]))])
    (obj [("b", VObj (obj [("c", VNum (num 9))])); ("e", VArr [])])
  = Some (Return
      (obj [("a", VNum (num 1));
            ("b", VObj (obj [("c", VNum (num 9)); ("d", VNum (num 3))]));
            ("e", VArr [])])).
Proof. vm_compute. reflexivity. Qed.

Example join_errors : join ", " ["a"; "b"; "c"] = "a, b, c".
Proof. reflexivity. Qed.

Example lower_case : MediaFactory.toLowerCase "HTTP://X/A.M3U8?Q=1" = "http://x/a.m3u8?q=1".
Proof. reflexivity. Qed.

Example extension_then_query :
  MediaFactory.matchesExtension MediaFactory.audioExtensions "song.mp3?token=1" = true
  /\ MediaFactory.matchesExtension MediaFactory.audioExtensions "song.mp3#t=10" = false
  /\ MediaFactory.matchesExtension MediaFactory.audioExtensions "song.mp3.bak" = false.
Proof. by vm_compute. Qed.

Example off_removes_first_match :
  EventManager.off "e" 1
    (EventManager.on "e" 1 VNull
       (EventManager.on "e" 2 VNull (EventManager.on "e" 1 VNull EventManager.new)))
  = EventManager.on "e" 1 VNull (EventManager.on "e" 2 VNull EventManager.new).
Proof. by vm_compute. Qed.

(** ** Configuration merging *)



Lemma lookup_mergedObject (t s : gmap string value) k :
  mergedObject t s !! k =
  match t !! k, s !! k with
  | Some tv, Some sv => Some (mergeValue tv sv)
  | Some tv, None => Some tv
  | None, o => o
  end.
Proof.
  unfold mergedObject. rewrite lookup_union_with.
  by destruct (t !! k), (s !! k).
Qed.



Lemma mergeValue_over_leaf t s : isObject t = false -> mergeValue t s = s.
Proof. by destruct t. Qed.





(** *** How [deepMerge] ends *)















Lemma deepMerge_returned (target source cfg : gmap string value) :
  deepMerge target source = Some (Return cfg) ->
  cfg = mergedObject target source.
Proof.
  unfold deepMerge.
  destruct (mergeEnding (VObj target) (VObj source));
    [|discriminate|discriminate].
  intros H. by injection H.
Qed.

Lemma deepMerge_returns (target source : gmap string value) :
  mergeEnding (VObj target) (VObj source) = Returns ->
  deepMerge target source = Some (Return (mergedObject target source)).
Proof. unfold deepMerge. by intros ->. Qed.

(** A source that owns [hasOwnProperty] throws, at the top and where the
    recursion gets; under a key whose default is not a plain object the
    same object is stored as it is. *)
Example deepMerge_hasOwnProperty :
  createConfig (obj [("hasOwnProperty", VNum (num 1))])
  = Some (Throw (TypeError "source.hasOwnProperty is not a function"))
  /\ createConfig (obj [("features", VObj (obj [("hasOwnProperty", VNull)]))])
     = Some (Throw (TypeError "source.hasOwnProperty is not a function"))
  /\ (let user := obj [("poster", VObj (obj [("hasOwnProperty", VNull)]))] in
      exists cfg, createConfig user = Some (Return cfg)
                  /\ cfg !! "poster" = user !! "poster").
Proof.
  split; [|split]; [vm_compute; reflexivity..|].
  intros user. exists (createdConfig user). split.
  - apply deepMerge_returns. vm_compute. reflexivity.
  - vm_compute. reflexivity.
Qed.

(** A source that owns [__proto__] where the target does not: no result,
    unless the call throws anyway. *)
Example deepMerge_proto :
  createConfig (obj [("__proto__", VObj (obj [("mediaType", VStr "mp4")]))])
  = None
  /\ createConfig (obj [("__proto__", VNull);
                        ("theme", VObj (obj [("hasOwnProperty", VNull)]))])
     = Some (Throw (TypeError "source.hasOwnProperty is not a function"))
  /\ deepMerge (obj [("__proto__", VNum (num 1))]) (obj [("__proto__", VNum (num 2))])
     = Some (Return (obj [("__proto__", VNum (num 2))])).
Proof. split; [|split]; vm_compute; reflexivity. Qed.




(** ** Media type detection *)

Import MediaFactory.

Lemma append_nil_l (s : string) : "" +:+ s = s.
Proof. reflexivity. Qed.

Lemma append_cons c (a b : string) : String c a +:+ b = String c (a +:+ b).
Proof. reflexivity. Qed.

Lemma stripPrefix_Some pre s r :
  stripPrefix pre s = Some r <-> s = pre +:+ r.
Proof.
  revert s. induction pre as [|a pre IH]; intros s; simpl.
  - rewrite append_nil_l. split; [by intros [= ->]|by intros ->].
  - rewrite append_cons. destruct s as [|b s]; [by split|].
    destruct (Ascii.eqb_spec a b) as [->|Hne].
    + rewrite IH. split; [by intros ->|by intros [= ->]].
    + split; [done|]. intros [= Hb _]. by destruct Hne.
Qed.

Lemma stripPrefix_None pre s :
  stripPrefix pre s = None -> forall r, s <> pre +:+ r.
Proof.
  intros Hn r Hr. apply stripPrefix_Some in Hr. congruence.
Qed.

(** [includes] is the substring test. *)
Lemma includes_spec s sub :
  includes s sub = true <-> exists a b, s = a +:+ sub +:+ b.
Proof.
  induction s as [|c s IH]; simpl.
  - destruct (stripPrefix sub "") as [r|] eqn:Hr.
    + apply stripPrefix_Some in Hr. split; [|done].
      intros _. by exists "", r.
    + split; [done|]. intros ([|] & b & Hab); [|done].
      rewrite append_nil_l in Hab. by apply stripPrefix_None with (r := b) in Hr.
  - destruct (stripPrefix sub (String c s)) as [r|] eqn:Hr.
    + apply stripPrefix_Some in Hr. split; [|done].
      intros _. by exists "", r.
    + rewrite IH. split.
      * intros (a & b & ->). by exists (String c a), b.
      * intros ([|c' a] & b & Hab).
        -- rewrite append_nil_l in Hab.
           by apply stripPrefix_None with (r := b) in Hr.
        -- rewrite append_cons in Hab. injection Hab as -> ->. by exists a, b.
Qed.

Lemma extensionHere_spec exts s :
  extensionHere exts s = true <->
  exists e b, In e exts /\ s = "." +:+ e +:+ b
              /\ (b = "" \/ exists b', b = String "?" b').
Proof.
  unfold extensionHere. rewrite existsb_exists. split.
  - intros (e & He & Hm).
    destruct (stripPrefix ("." +:+ e) s) as [r|] eqn:Hr; [|done].
    apply stripPrefix_Some in Hr. exists e, r. split; [done|].
    split; [done|]. destruct r as [|c r]; [by left|right].
    apply Ascii.eqb_eq in Hm as ->. by exists r.
  - intros (e & b & He & Hs & Hb). exists e. split; [done|].
    apply (proj2 (stripPrefix_Some ("." +:+ e) s b)) in Hs. rewrite Hs.
    destruct Hb as [->|(b' & ->)]; [done|]. apply Ascii.eqb_refl.
Qed.

(** [matchesExtension] finds a dot, an extension of the list and then a
    question mark or the end of the string. *)
Lemma matchesExtension_spec exts s :
  matchesExtension exts s = true <->
  exists a e b, In e exts /\ s = a +:+ "." +:+ e +:+ b
                /\ (b = "" \/ exists b', b = String "?" b').
Proof.
  induction s as [|c s IH]; simpl; rewrite orb_true_iff, extensionHere_spec.
  - split.
    + intros [(e & b & He & Hs & Hb)|]; [|done]. by exists "", e, b.
    + intros ([|] & e & b & He & Hs & Hb); [|done]. left. by exists e, b.
  - rewrite IH. split.
    + intros [(e & b & He & Hs & Hb)|(a & e & b & He & -> & Hb)].
      * by exists "", e, b.
      * by exists (String c a), e, b.
    + intros ([|c' a] & e & b & He & Hs & Hb).
      * left. by exists e, b.
      * rewrite append_cons in Hs. injection Hs as -> ->.
        right. by exists a, e, b.
Qed.

(** C3, as stated, fails: a URL with an audio extension and neither
    [.m3u8] nor [.mpd] in it is detected as HLS when the text [hls] occurs
    anywhere in it. *)
Lemma detectMediaType_hls_substring_wins :
  let url := "https://cdn.example.com/hls/song.mp3" in
  includes (toLowerCase url) ".m3u8" = false
  /\ includes (toLowerCase url) ".mpd" = false
  /\ matchesExtension audioExtensions (toLowerCase url) = true
  /\ detectAsStated (toLowerCase url) = "audio"
  /\ detectMediaType (VStr url) (obj []) = Return (VStr "hls").
Proof. vm_compute. by repeat split. Qed.

(** C3 (amended): on a string URL [detectMediaType] always returns, and
    returns the same for the same arguments.  An explicit [type] wins,
    then a truthy [config.priority].  Otherwise the lower-cased URL decides:
    ['hls'] when it contains [.m3u8] or [hls]; else ['dash'] when it
    contains [.mpd] or [dash]; else ['audio'] when an audio extension
    (mp3, wav, aac, ogg) is followed by [?] or ends the URL; else ['video'].
    So [a.m3u8], [a.mpd], [a.mp3], [a.mp4] and an unknown extension give
    hls, dash, audio, video and video. *)
Theorem detectMediaType_decision
  (url : string) (type : value) (config : gmap string value) :
  let u := toLowerCase url in
  let hlsLike := includes u ".m3u8" || includes u "hls" in
  let dashLike := includes u ".mpd" || includes u "dash" in
  let audioLike := matchesExtension audioExtensions u in
  (truthy type = true ->
     detectedType (VStr url) type config = Return type)
  /\ (truthy type = false ->
     detectedType (VStr url) type config = detectMediaType (VStr url) config)
  /\ (truthy (prop config "priority") = true ->
     detectMediaType (VStr url) config = Return (prop config "priority"))
  /\ (truthy (prop config "priority") = false ->
     exists t, detectMediaType (VStr url) config = Return (VStr t)
       /\ (t = "hls" <-> hlsLike = true)
       /\ (t = "dash" <-> hlsLike = false /\ dashLike = true)
       /\ (t = "audio" <->
           hlsLike = false /\ dashLike = false /\ audioLike = true)
       /\ (t = "video" <->
           hlsLike = false /\ dashLike = false /\ audioLike = false))
  /\ detectMediaType (VStr "a.m3u8") (obj []) = Return (VStr "hls")
  /\ detectMediaType (VStr "a.mpd") (obj []) = Return (VStr "dash")
  /\ detectMediaType (VStr "a.mp3") (obj []) = Return (VStr "audio")
  /\ detectMediaType (VStr "a.mp4") (obj []) = Return (VStr "video")
  /\ detectMediaType (VStr "a.xyz") (obj []) = Return (VStr "video").
Proof.
  intros u hlsLike dashLike audioLike.
  split; [|split; [|split; [|split]]].
  - intros Ht. unfold detectedType. by rewrite Ht.
  - intros Ht. unfold detectedType. by rewrite Ht.
  - intros Hp. unfold detectMediaType. by rewrite Hp.
  - intros Hp. unfold detectMediaType. rewrite Hp.
    eexists. split; [reflexivity|].
    unfold detectFromUrl. fold u. fold hlsLike. fold dashLike. fold audioLike.
    destruct hlsLike, dashLike, audioLike;
      try destruct (matchesExtension videoExtensions u);
      repeat split; intros; destruct_and?; congruence.
  - vm_compute. by repeat split.
Qed.

(** The amended C3 on a configuration without priority and an upper-case
    DASH manifest URL. *)
Lemma detectMediaType_decision_witness :
  detectedType (VStr "HTTP://X/MOVIE.MPD") VUndefined (obj [])
  = detectMediaType (VStr "HTTP://X/MOVIE.MPD") (obj []).
Proof.
  destruct (detectMediaType_decision "HTTP://X/MOVIE.MPD" VUndefined (obj []))
    as (_ & Hdetect & _).
  apply Hdetect. reflexivity.
Defined.

(** ** Event dispatch *)

Module EM := EventManager.

Section Dispatch.
Variable env : nat -> EM.behaviour.
Variable ev : string.
Variable data : value.

Lemma performCall_other c m :
  EM.callEvent c <> ev ->
  EM.events (EM.performCall c m) !! ev = EM.events m !! ev
  /\ EM.onceEvents (EM.performCall c m) !! ev = EM.onceEvents m !! ev.
Proof.
  intros Hc. destruct c as [e cb|e cb|e cb]; simpl in *.
  - by rewrite lookup_insert_ne.
  - by rewrite lookup_insert_ne.
  - unfold EM.off. destruct (EM.events m !! e) as [ls|]; [|done].
    destruct (EM.findIndex cb ls); [|done]. simpl.
    by rewrite lookup_insert_ne.
Qed.

Lemma performCalls_other cs : forall m,
  Forall (fun c => EM.callEvent c <> ev) cs ->
  EM.events (foldl (fun m c => EM.performCall c m) m cs) !! ev = EM.events m !! ev
  /\ EM.onceEvents (foldl (fun m c => EM.performCall c m) m cs) !! ev
     = EM.onceEvents m !! ev.
Proof.
  induction cs as [|c cs IH]; intros m Hcs; simpl; [done|].
  apply Forall_cons in Hcs as [Hc Hcs].
  destruct (IH (EM.performCall c m) Hcs) as [-> ->].
  by apply performCall_other.
Qed.

(** One guarded call: the listener is called, a throw becomes a console
    line, and the statement completes normally. *)
Lemma guarded_call line l w0 w :
  EM.leavesAlone env ev l -> EM.sameArrays ev w0 w ->
  exists w',
    EM.tryCatch (EM.invoke env l data) (fun _ => EM.consoleError line) w = (w', None)
    /\ EM.sameArrays ev w0 w'
    /\ EM.invoked w' = EM.invoked w ++ [EM.callOf data l]
    /\ EM.console w' =
       EM.console w ++ map (fun _ => line) (EM.throwing env [l]).
Proof.
  intros Hl [He Ho].
  destruct (performCalls_other _ (EM.manager w) Hl) as [He' Ho'].
  unfold EM.tryCatch, EM.invoke, EM.throwing. simpl.
  destruct (EM.throws (env (EM.callback l))); simpl;
    eexists; (split; [reflexivity|]); unfold EM.sameArrays; simpl;
    rewrite He', Ho'; repeat split; try done.
  by rewrite app_nil_r.
Qed.

(** The loop of [forEach] from index [k] on, over an array that the
    listeners leave alone. *)
Lemma forEachFrom_all line (array : EM.world -> list EM.listener) ls w0 :
  (forall w, EM.sameArrays ev w0 w -> array w = ls) ->
  Forall (EM.leavesAlone env ev) ls ->
  forall remaining k w,
    EM.sameArrays ev w0 w -> k + remaining = length ls ->
    exists w',
      EM.forEachFrom array
        (fun l => EM.tryCatch (EM.invoke env l data)
                    (fun _ => EM.consoleError line)) k remaining w = (w', None)
      /\ EM.sameArrays ev w0 w'
      /\ EM.invoked w' = EM.invoked w ++ map (EM.callOf data) (drop k ls)
      /\ EM.console w' =
         EM.console w ++ map (fun _ => line) (EM.throwing env (drop k ls)).
Proof.
  intros Harr Hls. induction remaining as [|r IH]; intros k w Hw Hlen; simpl.
  - exists w. rewrite drop_ge by lia. simpl. by rewrite !app_nil_r.
  - rewrite (Harr w Hw).
    destruct (lookup_lt_is_Some_2 ls k) as [l Hl]; [lia|]. rewrite Hl.
    assert (EM.leavesAlone env ev l) as Hquiet.
    { eapply Forall_lookup_1; eauto. }
    destruct (guarded_call line l w0 w Hquiet Hw) as (w1 & -> & Hw1 & Hinv & Hcon).
    destruct (IH (S k) w1 Hw1 ltac:(lia)) as (w' & -> & Hw' & Hinv' & Hcon').
    exists w'. split; [done|]. split; [done|].
    rewrite (drop_S _ _ _ Hl). simpl. rewrite Hinv', Hinv, Hcon', Hcon.
    unfold EM.throwing. simpl.
    destruct (EM.throws (env (EM.callback l))); simpl;
      by rewrite <- !app_assoc.
Qed.

End Dispatch.

Lemma forEach_all env ev data line
    (array : EM.world -> list EM.listener) w :
  (forall w', EM.sameArrays ev w w' -> array w' = array w) ->
  Forall (EM.leavesAlone env ev) (array w) ->
  exists w',
    EM.forEach array
      (fun l => EM.tryCatch (EM.invoke env l data)
                  (fun _ => EM.consoleError line)) w = (w', None)
    /\ EM.sameArrays ev w w'
    /\ EM.invoked w' = EM.invoked w ++ map (EM.callOf data) (array w)
    /\ EM.console w' =
       EM.console w ++ map (fun _ => line) (EM.throwing env (array w)).
Proof.
  intros Harr Hquiet. unfold EM.forEach.
  apply (forEachFrom_all env ev data line array (array w) w Harr Hquiet);
    [done|lia].
Qed.

Lemma regularListeners_same ev w w' :
  EM.sameArrays ev w w' -> EM.regularListeners ev w' = EM.regularListeners ev w.
Proof. intros [He _]. unfold EM.regularListeners. by rewrite He. Qed.

Lemma onceListeners_same ev w w' :
  EM.sameArrays ev w w' -> EM.onceListeners ev w' = EM.onceListeners ev w.
Proof. intros [_ Ho]. unfold EM.onceListeners. by rewrite Ho. Qed.

(** C9, as stated, fails in two ways.  A once-listener subscribed before a
    regular listener is called after it: subscribing callback 1 with
    [once] and then callback 2 with [on] makes [emit] call 2 and then 1.
    And a regular listener that unsubscribes itself when called makes
    [forEach] skip its successor: with listeners 1 and 3 subscribed,
    callback 1 calling [off('e', 1)], [emit] calls 1 only. *)
Lemma emit_order_and_skipped_listener :
  let quiet := fun _ : nat => EM.Behaviour [] false in
  let selfRemoving := fun n : nat =>
    match n with
    | 1%nat => EM.Behaviour [EM.CallOff "e" 1%nat] false
    | _ => EM.Behaviour [] false
    end in
  let start := fun m => EM.World m [] [] in
  EM.calledCallbacks
    (fst (EM.emit quiet "e" VNull
            (start (EM.on "e" 2%nat VNull (EM.once "e" 1%nat VNull EM.new)))))
  = [2%nat; 1%nat]
  /\ EM.calledCallbacks
       (fst (EM.emit selfRemoving "e" VNull
               (start (EM.on "e" 3%nat VNull (EM.on "e" 1%nat VNull EM.new)))))
     = [1%nat].
Proof. vm_compute. by split. Qed.

(** C9 (amended): when no listener of the event subscribes or unsubscribes
    a listener of that same event while it is called, [emit] calls every
    regular listener in subscription order and then every once-listener in
    subscription order, each with its context and the payload; a listener
    that throws costs one line on [console.error] and nothing else: the
    later listeners are still called and [emit] completes normally.  The
    regular listeners stay subscribed and the once-listeners of the event
    are removed. *)
Theorem emit_calls_every_listener
  (env : nat -> EM.behaviour) (ev : string) (data : value) (w : EM.world) :
  let regular := EM.regularListeners ev w in
  let onces := EM.onceListeners ev w in
  Forall (EM.leavesAlone env ev) (regular ++ onces) ->
  exists w',
    EM.emit env ev data w = (w', None)
    /\ EM.invoked w' = EM.invoked w ++ map (EM.callOf data) (regular ++ onces)
    /\ EM.console w' =
       EM.console w
       ++ map (fun _ => "Error in event listener for " +:+ ev)
              (EM.throwing env regular)
       ++ map (fun _ => "Error in once event listener for " +:+ ev)
              (EM.throwing env onces)
    /\ EM.events (EM.manager w') !! ev = EM.events (EM.manager w) !! ev
    /\ EM.onceEvents (EM.manager w') !! ev = None.
Proof.
  intros regular onces Hquiet. apply Forall_app in Hquiet as [Hreg Honce].
  unfold EM.emit, EM.seq.
  (* the regular listeners *)
  assert (exists w1,
    (if decide (is_Some (EM.events (EM.manager w) !! ev))
     then EM.forEach (EM.regularListeners ev)
            (fun l => EM.tryCatch (EM.invoke env l data)
               (fun _ => EM.consoleError ("Error in event listener for " +:+ ev))) w
     else EM.skip w) = (w1, None)
    /\ EM.sameArrays ev w w1
    /\ EM.invoked w1 = EM.invoked w ++ map (EM.callOf data) regular
    /\ EM.console w1 =
       EM.console w ++ map (fun _ => "Error in event listener for " +:+ ev)
                           (EM.throwing env regular))
    as (w1 & -> & Hw1 & Hinv1 & Hcon1).
  { destruct (decide (is_Some (EM.events (EM.manager w) !! ev))) as [_|Hnone].
    - apply forEach_all; [apply regularListeners_same|done].
    - exists w. split; [done|]. split; [done|].
      subst regular. unfold EM.regularListeners.
      destruct (EM.events (EM.manager w) !! ev); [by destruct Hnone|].
      simpl. by rewrite !app_nil_r. }
  pose proof (onceListeners_same ev w w1 Hw1) as Honces.
  destruct Hw1 as [He1 Ho1].
  destruct (decide (is_Some (EM.onceEvents (EM.manager w1) !! ev))) as [_|Hnone].
  - destruct (forEach_all env ev data ("Error in once event listener for " +:+ ev)
                (EM.onceListeners ev) w1) as (w2 & -> & [He2 Ho2] & Hinv2 & Hcon2).
    { apply onceListeners_same. }
    { by rewrite Honces. }
    eexists. split; [reflexivity|]. simpl.
    rewrite Hinv2, Hinv1, Hcon2, Hcon1, Honces, map_app, lookup_delete_eq.
    rewrite <- !app_assoc. repeat split; congruence.
  - exists w1. split; [done|].
    assert (onces = []) as Hempty.
    { subst onces. unfold EM.onceListeners. rewrite <- Ho1.
      destruct (EM.onceEvents (EM.manager w1) !! ev); [by destruct Hnone|done]. }
    rewrite Hinv1, Hcon1, Hempty. simpl. rewrite !app_nil_r.
    repeat split; try done.
    destruct (EM.onceEvents (EM.manager w1) !! ev) eqn:E; [|done].
    destruct Hnone. by eexists.
Qed.

(** The amended C9 on three regular listeners, the second of which throws,
    and one once-listener. *)
Lemma emit_calls_every_listener_witness :
  let env := fun n : nat => EM.Behaviour [] (Nat.eqb n 2) in
  let w := EM.World
             (EM.once "e" 4%nat VNull
                (EM.on "e" 3%nat VNull
                   (EM.on "e" 2%nat VNull (EM.on "e" 1%nat VNull EM.new))))
             [] [] in
  exists w',
    EM.emit env "e" (VStr "payload") w = (w', None)
    /\ EM.calledCallbacks w' = [1%nat; 2%nat; 3%nat; 4%nat]
    /\ EM.console w' = ["Error in event listener for e"].
Proof.
  intros env w.
  destruct (emit_calls_every_listener env "e" (VStr "payload") w)
    as (w' & Hemit & Hinv & Hcon & _).
  { vm_compute. repeat constructor. }
  exists w'. split; [exact Hemit|]. unfold EM.calledCallbacks.
  rewrite Hinv, Hcon. by vm_compute.
Defined.

(** ** Volume of a media source *)

Module VS := VideoSource.

Lemma Qle_bool_false (x y : Q) : Qle_bool x y = false -> (y < x)%Q.
Proof.
  intros H. apply Qnot_le_lt. intros Hle.
  apply Qle_bool_iff in Hle. congruence.
Qed.

(** The value [setVolume] hands to the element is the argument clamped to
    [0, 1]. *)
Lemma clamp_finite (q : Q) :
  exists c : Q,
    Math_max (num 0) (Math_min (num 1) (Fin q)) = Fin c
    /\ (c == Qmax 0 (Qmin 1 q))%Q /\ (0 <= c)%Q /\ (c <= 1)%Q.
Proof.
  unfold Math_max, Math_min, num. simpl.
  change (inject_Z 1) with 1%Q. change (inject_Z 0) with 0%Q.
  destruct (Qle_bool q 1) eqn:H1; simpl.
  - apply Qle_bool_iff in H1.
    destruct (Qle_bool q 0) eqn:H0; simpl.
    + apply Qle_bool_iff in H0. exists 0%Q. split; [done|].
      rewrite (Q.min_r 1 q H1), (Q.max_l 0 q H0). by repeat split.
    + apply Qle_bool_false in H0. exists q. split; [done|].
      assert (0 <= q)%Q as H0' by (by apply Qlt_le_weak).
      rewrite (Q.min_r 1 q H1), (Q.max_r 0 q H0'). by repeat split.
  - apply Qle_bool_false in H1. exists 1%Q. split; [done|].
    assert (1 <= q)%Q as H1' by (by apply Qlt_le_weak).
    rewrite (Q.min_l 1 q H1'), (Q.max_r 0 1); by repeat split.
Qed.

(** The element accepts every value of [0, 1]. *)
Lemma assignVolume_in_range (c : Q) (el : VS.MediaElement) :
  (0 <= c)%Q -> (c <= 1)%Q ->
  VS.assignVolume (Fin c) el =
  Return (VS.MkElement (VS.src el) (Fin c) (VS.muted el) (VS.paused el)
            (VS.currentTime el) (VS.playbackRate el)).
Proof.
  intros H0 H1. unfold VS.assignVolume, greaterThan, lessThan, num. simpl.
  change (inject_Z 1) with 1%Q. change (inject_Z 0) with 0%Q.
  apply Qle_bool_iff in H0, H1. by rewrite H0, H1.
Qed.

(** C10: for every real [v], [setVolume(v)] on a source that has its
    element returns normally and leaves the element with the volume
    [max(0, min(1, v))], a value of [0, 1]; nothing else changes.  The
    same holds for the two infinities, which clamp to 1 and 0.  Without an
    element the call returns the source as it was, whatever the argument.
    The element's IndexSizeError is never reached. *)
Theorem VideoSource_setVolume_clamps (q : Q) (s : VS.t) :
  (forall el, VS.videoElement s = Some el ->
     (exists c : Q,
        (c == Qmax 0 (Qmin 1 q))%Q /\ (0 <= c)%Q /\ (c <= 1)%Q
        /\ VS.setVolume (Fin q) s =
           Return (VS.withElement
                     (Some (VS.MkElement (VS.src el) (Fin c) (VS.muted el)
                              (VS.paused el) (VS.currentTime el)
                              (VS.playbackRate el))) s))
     /\ VS.setVolume PosInf s =
        Return (VS.withElement
                  (Some (VS.MkElement (VS.src el) (num 1) (VS.muted el)
                           (VS.paused el) (VS.currentTime el)
                           (VS.playbackRate el))) s)
     /\ VS.setVolume NegInf s =
        Return (VS.withElement
                  (Some (VS.MkElement (VS.src el) (num 0) (VS.muted el)
                           (VS.paused el) (VS.currentTime el)
                           (VS.playbackRate el))) s))
  /\ (VS.videoElement s = None -> forall v, VS.setVolume v s = Return s).
Proof.
  split.
  - intros el Hel. unfold VS.setVolume. rewrite Hel. split; [|by split].
    destruct (clamp_finite q) as (c & -> & Hc & H0 & H1).
    exists c. repeat (split; [done|]).
    by rewrite (assignVolume_in_range c el H0 H1).
  - intros Hel v. unfold VS.setVolume. by rewrite Hel.
Qed.

(** C10 at the out-of-range volume 3/2 on a loaded source. *)
Lemma VideoSource_setVolume_clamps_witness :
  let el := VS.MkElement (VStr "clip.mp4") (num 1) false true (num 0) (num 1) in
  let s := VS.loaded el (VS.new 0 MediaFactory.Mp4SourceClass (VStr "clip.mp4") ∅) in
  exists (c : Q) (s' : VS.t),
    (c == 1)%Q
    /\ VS.setVolume (Fin (3 # 2)) s = Return s'
    /\ VS.volume <$> VS.videoElement s' = Some (Fin c).
Proof.
  intros el s.
  destruct (VideoSource_setVolume_clamps (3 # 2) s) as [Hloaded _].
  destruct (Hloaded _ eq_refl) as ((c & Hc & _ & _ & Hset) & _).
  exists c. eexists. split; [by rewrite Hc|]. split; [exact Hset|done].
Defined.

(** ** Volume and mute of a player instance *)

Import Player.

(** On a finite argument the source's [setVolume] returns, and changes
    nothing but the element. *)
Lemma VideoSource_setVolume_returns (q : Q) (s : VS.t) :
  exists el', VS.setVolume (Fin q) s = Return (VS.withElement el' s).
Proof.
  unfold VS.setVolume. destruct (VS.videoElement s) as [el|] eqn:Hel.
  - destruct (clamp_finite q) as (c & -> & _ & H0 & H1).
    rewrite (assignVolume_in_range c el H0 H1). by eexists.
  - exists None. destruct s. simpl in *. by subst.
Qed.

(** C1, as stated, fails: a positive volume clears the muted flag.  On an
    instance muted by [toggleMute], [setVolume(0.5)] returns normally and
    leaves [state.muted] false. *)
Lemma setVolume_positive_unmutes :
  let fresh :=
    newInstance "up_1" (createdConfig (obj [("videoUrl", VStr "clip.mp4")])) 0 in
  let mutedInstance := run [CallToggleMute] fresh in
  muted (state mutedInstance) = true
  /\ snd (setVolume (Fin (1 # 2)) mutedInstance) = None
  /\ muted (state (fst (setVolume (Fin (1 # 2)) mutedInstance))) = false.
Proof. vm_compute. by repeat split. Qed.

(** C1 (amended): on an instance that has its media source, [setVolume(v)]
    with a finite [v] returns normally and leaves [state.volume = v] and
    [state.muted = (v === 0)].  So [setVolume(0)] leaves the instance
    muted, and [setVolume(x)] with [x > 0] leaves it not muted, whatever
    the flag was before; [toggleMute] flips the flag. *)
Theorem setVolume_muted_iff_zero (i : PlayerInstance) (s : VS.t) :
  mediaSource i = Some s ->
  (forall q : Q, exists i',
      setVolume (Fin q) i = (i', None)
      /\ volume (state i') = Fin q
      /\ muted (state i') = Qeq_bool q 0)
  /\ (exists i', setVolume (num 0) i = (i', None) /\ muted (state i') = true)
  /\ (forall q : Q, (0 < q)%Q -> exists i',
        setVolume (Fin q) i = (i', None) /\ muted (state i') = false)
  /\ (exists i', toggleMute i = (i', None)
                 /\ muted (state i') = negb (muted (state i))).
Proof.
  intros Hs.
  assert (forall q : Q, exists i',
      setVolume (Fin q) i = (i', None)
      /\ volume (state i') = Fin q
      /\ muted (state i') = Qeq_bool q 0) as Hset.
  { intros q. unfold setVolume, seq, onSource. rewrite Hs.
    destruct (VideoSource_setVolume_returns q s) as (el' & ->).
    eexists. by repeat split. }
  split; [exact Hset|]. split; [|split].
  - destruct (Hset 0%Q) as (i' & Hi' & _ & Hm). by exists i'.
  - intros q Hq. destruct (Hset q) as (i' & Hi' & _ & Hm).
    exists i'. split; [done|]. rewrite Hm.
    destruct (Qeq_bool q 0) eqn:E; [|done].
    apply Qeq_bool_iff in E. rewrite E in Hq. by apply Qlt_irrefl in Hq.
  - unfold toggleMute, seq, onSource, VS.setMuted. rewrite Hs.
    destruct (VS.videoElement s); eexists; by split.
Qed.

(** The amended C1 on a fresh instance: silence mutes, a positive volume
    does not. *)
Lemma setVolume_muted_iff_zero_witness :
  let fresh :=
    newInstance "up_1" (createdConfig (obj [("videoUrl", VStr "clip.mp4")])) 0 in
  (exists i', setVolume (num 0) fresh = (i', None) /\ muted (state i') = true)
  /\ (exists i', setVolume (Fin (3 # 4)) fresh = (i', None)
                 /\ muted (state i') = false).
Proof.
  intros fresh.
  destruct (setVolume_muted_iff_zero fresh
              (VS.new 0 MediaFactory.HLSSourceClass (VStr "clip.mp4")
                 (config fresh)))
    as (_ & Hzero & Hpos & _).
  { reflexivity. }
  split; [exact Hzero|]. apply Hpos. reflexivity.
Defined.

(** ** Playing flag of a player instance *)

Ltac unfold_methods :=
  unfold perform, play, pause, seek, setVolume, toggleMute, setPlaybackRate,
    loadVideo, handlePlay, handlePause, handleEnded, handleTimeUpdate,
    handleVolumeChange, handleSeeking, handleSeeked, handleError,
    when, tryCatch, seq, assign, does, onSource,
    VS.play, VS.pause, VS.seek, VS.setVolume, VS.setMuted,
    VS.setPlaybackRate, VS.loadUrl, VS.loaded, VS.withElement,
    mbind, completion_bind, JS.bind in *.

Lemma perform_sourceReady (a : action) (i : PlayerInstance) :
  sourceReady i = true -> sourceReady (fst (perform a i)) = true.
Proof.
  unfold sourceReady. intros Hready.
  destruct (mediaSource i) as [s|] eqn:Hs; [|done].
  apply bool_decide_eq_true in Hready as [el Hel].
  destruct a; unfold_methods; simpl; rewrite ?Hs; simpl; rewrite ?Hel; simpl;
    repeat (case_match; simpl in *; simplify_eq; rewrite ?Hs, ?Hel);
    simpl; rewrite ?Hs, ?Hel; simpl; try done.
Qed.

Lemma perform_playing (a : action) (i : PlayerInstance) :
  sourceReady i = true ->
  playing (state (fst (perform a i))) =
  default (playing (state i)) (writesPlaying a).
Proof.
  unfold sourceReady. intros Hready.
  destruct (mediaSource i) as [s|] eqn:Hs; [|done].
  apply bool_decide_eq_true in Hready as [el Hel].
  destruct a; unfold_methods; simpl; rewrite ?Hs; simpl; rewrite ?Hel; simpl;
    repeat (case_match; simpl in *; simplify_eq; rewrite ?Hs, ?Hel);
    simpl; rewrite ?Hs, ?Hel; simpl; try done.
Qed.

Lemma run_snoc (actions : list action) (a : action) (i : PlayerInstance) :
  run (actions ++ [a]) i = fst (perform a (run actions i)).
Proof. unfold run. by rewrite foldl_app. Qed.

Lemma run_sourceReady (actions : list action) (i : PlayerInstance) :
  sourceReady i = true -> sourceReady (run actions i) = true.
Proof.
  intros Hready. induction actions as [|a actions IH] using rev_ind; [done|].
  rewrite run_snoc. by apply perform_sourceReady.
Qed.

(** C2, as stated, fails: [pause()] writes [state.playing] itself.  After
    the media source's play event and a call of [pause()], the last
    playback event of the source is still play, and [state.playing] is
    already false. *)
Lemma pause_writes_playing_itself :
  let el := VS.MkElement (VStr "") (num 1) false true (num 0) (num 1) in
  let ready :=
    run [SourceLoaded el]
      (newInstance "up_1" (createdConfig (obj [("videoUrl", VStr "clip.mp4")])) 0) in
  sourceReady ready = true
  /\ playing (state (run [OnPlay] ready)) = true
  /\ lastPlaybackEvent [OnPlay; CallPause] = Some OnPlay
  /\ playing (state (run [OnPlay; CallPause] ready)) = false.
Proof. vm_compute. by repeat split. Qed.

(** C2 (amended): on an instance whose media source has its element,
    [state.playing] after any run of media events and method calls is what
    the last of these wrote: true after the source's play event or a
    [play()] whose promise resolved, false after the source's pause or
    ended event or a [pause()] call, and unchanged when the run has none of
    them.  The handlers and the public [play()] and [pause()] all write the
    flag directly. *)
Theorem playing_is_last_write (actions : list action) (i : PlayerInstance) :
  sourceReady i = true ->
  playing (state (run actions i)) =
  default (playing (state i)) (last (omap writesPlaying actions)).
Proof.
  intros Hready. induction actions as [|a actions IH] using rev_ind; [done|].
  rewrite run_snoc, perform_playing by (by apply run_sourceReady).
  rewrite omap_app. simpl.
  destruct (writesPlaying a) as [b|]; simpl.
  - by rewrite last_snoc.
  - by rewrite app_nil_r.
Qed.

(** The amended C2 on a run with a seek backward and a pause call between
    two play events. *)
Lemma playing_is_last_write_witness :
  let el := VS.MkElement (VStr "") (num 1) false true (num 0) (num 1) in
  let ready :=
    run [SourceLoaded el]
      (newInstance "up_1" (createdConfig (obj [("videoUrl", VStr "clip.mp4")])) 0) in
  playing (state (run [OnPlay; OnTimeUpdate (num 5) (num 60); CallSeek (num 2);
                       OnSeeking; OnSeeked; CallPause; OnPause; CallPlay true]
                    ready)) = true.
Proof.
  intros el ready.
  rewrite (playing_is_last_write _ ready); reflexivity.
Defined.

(** ** The media source of a player instance *)

Lemma omap_snoc_other {A B} (f : A -> option B) (l : list A) (x : A) :
  f x = None -> omap f (l ++ [x]) = omap f l.
Proof. intros Hx. rewrite omap_app. simpl. rewrite Hx. apply app_nil_r. Qed.

Lemma perform_same_source (a : action) (i : PlayerInstance) :
  VS.sourceId <$> mediaSource (fst (perform a i)) = VS.sourceId <$> mediaSource i
  /\ constructed (fst (perform a i)) = constructed i.
Proof.
  unfold constructed.
  destruct (mediaSource i) as [s|] eqn:Hs;
    destruct a; unfold_methods; simpl; rewrite ?Hs; simpl;
    repeat (case_match; simpl in *; simplify_eq; rewrite ?Hs);
    simpl; rewrite ?Hs; simpl;
    rewrite ?omap_app; simpl; rewrite ?app_nil_r; done.
Qed.

Lemma run_same_source (actions : list action) (i : PlayerInstance) :
  VS.sourceId <$> mediaSource (run actions i) = VS.sourceId <$> mediaSource i
  /\ constructed (run actions i) = constructed i.
Proof.
  induction actions as [|a actions [IHid IHnew]] using rev_ind; [done|].
  rewrite run_snoc.
  destruct (perform_same_source a (run actions i)) as [-> ->]. by split.
Qed.

(** C8, as stated, fails.  [loadVideo] keeps the media source: on a loaded
    instance, loading [b.mp4] leaves the same source object, with its
    element, loaded flag and listeners, under the new URL, and constructs
    nothing; a destroyed source would have lost its element.  And an
    instance whose media type has no registered class has no media source
    at all. *)
Lemma loadVideo_keeps_the_source :
  let el := VS.MkElement (VStr "") (num 1) false true (num 0) (num 1) in
  let ready :=
    run [SourceLoaded el]
      (newInstance "up_1" (createdConfig (obj [("videoUrl", VStr "a.mp4")])) 0) in
  let after := run [CallLoadVideo (VStr "b.mp4")] ready in
  VS.sourceId <$> mediaSource ready = Some 0%nat
  /\ VS.sourceId <$> mediaSource after = Some 0%nat
  /\ VS.url <$> mediaSource after = Some (VStr "b.mp4")
  /\ VS.isLoaded <$> mediaSource after = Some true
  /\ sourceReady after = true
  /\ constructed after = [0%nat]
  /\ (VS.videoElement <$> (VS.destroy <$> mediaSource ready)) = Some None
  /\ mediaSource
       (newInstance "up_2" (createdConfig (obj [("mediaType", VStr "flash")])) 1)
     = None.
Proof. vm_compute. by repeat split. Qed.

(** C8 (amended): an instance has one playback state and at most one media
    source, the one its construction obtained from the factory: a fresh
    instance has a source exactly when it recorded one construction, and no
    run of media events and method calls replaces the source or constructs
    another.  [loadVideo(url)] keeps the source object, with its element,
    loaded flag and listeners, and stores the new URL in the source and in
    the element; the ended handler does the same with [nextVideo.url] when
    one is configured. *)
Theorem mediaSource_is_kept (actions : list action) (i : PlayerInstance) :
  (VS.sourceId <$> mediaSource (run actions i) = VS.sourceId <$> mediaSource i
   /\ constructed (run actions i) = constructed i)
  /\ (forall u s, mediaSource i = Some s ->
        loadVideo u i =
        (MkInstance (id i) (config i) (state i)
           (Some (VS.Make (VS.sourceId s) (VS.sourceClass s) u (VS.config s)
                    (VS.assignSrc u <$> VS.videoElement s)
                    (VS.isLoaded s) (VS.listeners s)))
           (effects i), None))
  /\ (hasNextVideo i = true ->
        mediaSource (fst (handleEnded i))
        = mediaSource (fst (loadVideo (nextVideoUrl i) i)))
  /\ (forall playerId cfg fresh,
        constructed (newInstance playerId cfg fresh)
        = match mediaSource (newInstance playerId cfg fresh) with
          | Some s => [VS.sourceId s]
          | None => []
          end).
Proof.
  split; [apply run_same_source|]. split; [|split].
  - intros u s Hs. unfold loadVideo, onSource, VS.loadUrl. by rewrite Hs.
  - intros Hnext. unfold handleEnded, when, seq, assign, does. simpl.
    unfold hasNextVideo in *. simpl. rewrite Hnext.
    unfold loadVideo, onSource, nextVideoUrl. simpl.
    destruct (mediaSource i) eqn:Hs; simpl; by rewrite ?Hs.
  - intros playerId cfg fresh. unfold newInstance.
    by destruct (MediaFactory.createMediaSource _ _ _).
Qed.

(** The amended C8 on an instance with a next video: after the ended
    event the source is the same object and holds the next URL. *)
Lemma mediaSource_is_kept_witness :
  let cfg := createdConfig (obj [("videoUrl", VStr "a.mp4");
                                ("nextVideo", VObj (obj [("url", VStr "b.mp4")]))]) in
  let fresh := newInstance "up_1" cfg 7 in
  VS.sourceId <$> mediaSource (run [OnPlay; OnEnded] fresh) = Some 7%nat
  /\ VS.url <$> mediaSource (fst (handleEnded fresh)) = Some (VStr "b.mp4").
Proof.
  intros cfg fresh.
  destruct (mediaSource_is_kept [OnPlay; OnEnded] fresh)
    as ((Hid & _) & _ & Hended & _).
  split; [by rewrite Hid|]. by rewrite Hended.
Defined.

(** ** Analytics: the flush loop *)

Module AM := AnalyticsManager.

(** A rejected send: the batch goes back in front of whatever was tracked
    meanwhile, and the turn ends normally. *)
Lemma cycle_rejected (during : AM.t -> AM.t) (arrived : list AM.EventData)
    (m : AM.t) (cfg : gmap string value) :
  AM.onlyTracks during arrived ->
  AM.config m = Some cfg -> truthy (prop cfg "trackingUrl") = true ->
  AM.isTracking m = true -> AM.trackingQueue m <> [] ->
  exists m',
    AM.cycle AM.Rejected during m = (m', None)
    /\ AM.config m' = AM.config m
    /\ AM.isTracking m' = true
    /\ AM.trackingQueue m' =
       take 10 (AM.trackingQueue m) ++ drop 10 (AM.trackingQueue m) ++ arrived.
Proof.
  intros Hduring Hcfg Hurl Hloop Hq. unfold AM.cycle. rewrite Hloop. simpl.
  destruct (AM.trackingQueue m) as [|e q] eqn:Eq; [done|].
  unfold AM.takeBatch, AM.sendEvents. simpl. rewrite Hcfg, Hurl. simpl.
  unfold AM.tryCatch, AM.seq, AM.fetch, AM.log, AM.unshift. simpl.
  match goal with |- context [during ?x] =>
    destruct (Hduring x) as (Hc & Ht & Hqueue) end.
  eexists. split; [reflexivity|]. simpl in *.
  rewrite Hc, Ht, Hqueue. by repeat split.
Qed.

Lemma onlyTracks_idle : AM.onlyTracks AM.idle [].
Proof. intros m. simpl. by rewrite app_nil_r. Qed.

(** Turns whose send is rejected, with nothing tracked meanwhile, leave
    the queue as it is, however many there are. *)
Lemma rejected_cycles_keep_queue (n : nat) (m : AM.t) (cfg : gmap string value) :
  AM.config m = Some cfg -> truthy (prop cfg "trackingUrl") = true ->
  AM.isTracking m = true ->
  let m' := Nat.iter n (fun x => fst (AM.cycle AM.Rejected AM.idle x)) m in
  AM.config m' = Some cfg /\ AM.isTracking m' = true
  /\ AM.trackingQueue m' = AM.trackingQueue m.
Proof.
  intros Hcfg Hurl Hloop. induction n as [|n (IHc & IHl & IHq)]; [done|].
  simpl. set (x := Nat.iter n _ m) in *.
  destruct (AM.trackingQueue x) as [|e q] eqn:Eq.
  - unfold AM.cycle. rewrite IHl. simpl. rewrite Eq. simpl.
    rewrite Eq. by repeat split.
  - destruct (cycle_rejected AM.idle [] x cfg onlyTracks_idle IHc Hurl IHl)
      as (m' & -> & Hc & Hl & Hq); [by rewrite Eq|].
    simpl. rewrite Hc, Hq, app_nil_r, take_drop, Eq. by repeat split.
Qed.

(** C6, as stated, fails: a send that the server answers with an error
    status is a failed send for the code too (it logs "Analytics tracking
    failed"), and its batch is not put back.  With one event queued and a
    response of status 500, the turn posts the event, logs the failure and
    leaves the queue empty. *)
Lemma failed_response_drops_batch :
  let cfg := obj [("enabled", VBool true);
                  ("trackingUrl", VStr "https://stats.example.com/collect")] in
  let m := AM.track "play" "up_1" [("playerId", VStr "up_1")] 1000
             (AM.init "up_1" cfg 0 "s1" AM.new) in
  let m' := fst (AM.cycle (AM.Responded false 500) AM.idle m) in
  length (AM.trackingQueue m) = 1%nat
  /\ AM.posted m' = [AM.trackingQueue m]
  /\ AM.console m' = ["Analytics tracking failed:"]
  /\ AM.trackingQueue m' = [].
Proof. vm_compute. by repeat split. Qed.

(** C6 (amended): in a turn of the flush loop whose [fetch] is rejected,
    the batch is put back at the front of the queue, ahead of the rest and
    of what was tracked during the send; it is the start of the next
    turn's batch and no queued event is lost.  The turn ends normally: the
    error goes to the console only.  Nothing bounds the retries: any
    number of rejected turns leaves the queue as it was.  A response with
    an error status is different: it is logged and its batch is not put
    back. *)
Theorem rejected_batch_is_retried
    (during : AM.t -> AM.t) (arrived : list AM.EventData) (n : nat)
    (m : AM.t) (cfg : gmap string value) :
  AM.onlyTracks during arrived ->
  AM.config m = Some cfg -> truthy (prop cfg "trackingUrl") = true ->
  AM.isTracking m = true -> AM.trackingQueue m <> [] ->
  let batch := take 10 (AM.trackingQueue m) in
  (exists m',
      AM.cycle AM.Rejected during m = (m', None)
      /\ AM.trackingQueue m' = batch ++ drop 10 (AM.trackingQueue m) ++ arrived
      /\ batch `prefix_of` take 10 (AM.trackingQueue m')
      /\ (forall e, e ∈ AM.trackingQueue m -> e ∈ AM.trackingQueue m'))
  /\ AM.trackingQueue (Nat.iter n (fun x => fst (AM.cycle AM.Rejected AM.idle x)) m)
     = AM.trackingQueue m
  /\ (forall status, exists m',
        AM.cycle (AM.Responded false status) during m = (m', None)
        /\ AM.trackingQueue m' = drop 10 (AM.trackingQueue m) ++ arrived).
Proof.
  intros Hduring Hcfg Hurl Hloop Hq batch. split; [|split].
  - destruct (cycle_rejected during arrived m cfg Hduring Hcfg Hurl Hloop Hq)
      as (m' & Hm' & _ & _ & Hqueue).
    exists m'. split; [done|]. split; [done|]. rewrite Hqueue. split.
    + rewrite take_app_ge by (subst batch; rewrite length_take; lia).
      by eexists.
    + intros e He. rewrite app_assoc, take_drop. apply elem_of_app. by left.
  - by apply (rejected_cycles_keep_queue n m cfg).
  - intros status. unfold AM.cycle. rewrite Hloop. simpl.
    destruct (AM.trackingQueue m) as [|e q] eqn:Eq; [done|].
    unfold AM.takeBatch, AM.sendEvents. simpl. rewrite Hcfg, Hurl. simpl.
    unfold AM.tryCatch, AM.seq, AM.fetch, AM.log. simpl.
    match goal with |- context [during ?x] =>
      destruct (Hduring x) as (Hc & Ht & Hqueue) end.
    eexists. split; [reflexivity|]. simpl in *. by rewrite Hqueue.
Qed.

(** The amended C6 on a queue of two events, a third being tracked while
    the rejected send is under way. *)
Lemma rejected_batch_is_retried_witness :
  let cfg := obj [("enabled", VBool true);
                  ("trackingUrl", VStr "https://stats.example.com/collect")] in
  let m := AM.track "pause" "up_1" [] 2000
             (AM.track "play" "up_1" [] 1000
                (AM.init "up_1" cfg 0 "s1" AM.new)) in
  let e := AM.MkEvent "seek" "up_2" 2500 None [] [] in
  let during := fun x : AM.t =>
    AM.Make (AM.config x) (AM.viewedThresholds x) (AM.sessionData x)
      (AM.trackingQueue x ++ [e]) (AM.isTracking x) (AM.console x) (AM.posted x) in
  exists m',
    AM.cycle AM.Rejected during m = (m', None)
    /\ map AM.timestamp (AM.trackingQueue m') = [1000; 2000; 2500]%Z.
Proof.
  intros cfg m e during.
  destruct (rejected_batch_is_retried during [e] 3 m cfg)
    as ((m' & Hm' & Hqueue & _) & _).
  - intros x. repeat split; reflexivity.
  - vm_compute. reflexivity.
  - vm_compute. reflexivity.
  - vm_compute. reflexivity.
  - vm_compute. discriminate.
  - exists m'. split; [exact Hm'|]. rewrite Hqueue. vm_compute. reflexivity.
Defined.

(** ** Analytics: the viewed threshold *)

Section ViewedThreshold.
Variable coerce : value -> number.

Lemma reaches_config (m m' : AM.t) (c : AM.progressCall) :
  AM.config m' = AM.config m -> AM.reaches coerce m' c = AM.reaches coerce m c.
Proof.
  intros Hc. unfold AM.reaches, AM.configProp.
  by rewrite Hc.
Qed.

Lemma enabled_config (m m' : AM.t) :
  AM.config m' = AM.config m -> AM.enabled m' = AM.enabled m.
Proof. intros Hc. unfold AM.enabled. by rewrite Hc. Qed.

Lemma other_player_mark (p pid : string) (marked : gset string) :
  pid <> p -> pid ∈ {[p]} ∪ marked <-> pid ∈ marked.
Proof.
  intros Hne. rewrite elem_of_union, elem_of_singleton. tauto.
Qed.

(** What one call of [trackProgress] does to the session of [pid].  The
    call fires when it is for [pid], reaches the threshold and the player
    is not marked yet: then the player is marked and [track] appends the
    event to the session and to the queue.  Otherwise the mark and the
    recorded events are as before, and what goes to the queue, if
    anything, is the event of another player. *)
Lemma trackProgress_step (m : AM.t) (c : AM.progressCall) (pid : string) :
  AM.enabled m = true -> is_Some (AM.sessionData m !! pid) ->
  let m' := AM.trackProgressCall coerce m c in
  let fires := bool_decide (AM.callPlayer c = pid) && AM.reaches coerce m c
               && negb (bool_decide (pid ∈ AM.viewedThresholds m)) in
  let fired := if fires then [AM.thresholdEvent m c] else [] in
  AM.config m' = AM.config m
  /\ is_Some (AM.sessionData m' !! pid)
  /\ AM.sessionIdOf <$> AM.sessionData m' !! pid
     = AM.sessionIdOf <$> AM.sessionData m !! pid
  /\ (pid ∈ AM.viewedThresholds m'
      <-> fires = true \/ pid ∈ AM.viewedThresholds m)
  /\ AM.viewedEvents pid m' = AM.viewedEvents pid m ++ fired
  /\ exists added, AM.trackingQueue m' = AM.trackingQueue m ++ added
                   /\ AM.viewedOf pid added = fired.
Proof.
  intros Hen [s Hs]. unfold AM.trackProgressCall, AM.trackProgress, AM.reaches.
  destruct c as [p t d now].
  cbn [AM.callPlayer AM.callTime AM.callDuration AM.callNow].
  change (atLeast (div t d) (ToNumber coerce (AM.configProp m "viewedThreshold")))
    with (AM.reachesThreshold coerce m (div t d)).
  rewrite Hen. set (usable := truthy (VNum d)). destruct usable; simpl.
  2: { rewrite andb_false_r. simpl.
       split; [done|]. split; [by eexists|]. split; [done|].
       split; [split; [by right|by intros [?|?]]|]. split; [by rewrite app_nil_r|].
       exists []. by rewrite app_nil_r. }
  destruct (decide (p = pid)) as [->|Hne].
  - rewrite (bool_decide_eq_true_2 (pid = pid)) by done. simpl. rewrite Hs.
    destruct (AM.reachesThreshold coerce m (div t d)) eqn:Hr; simpl.
    + destruct (decide (pid ∈ AM.viewedThresholds m)) as [Hin|Hout].
      * rewrite (bool_decide_eq_true_2 _ Hin). simpl.
        unfold AM.viewedEvents. simpl. rewrite lookup_insert_eq, Hs. simpl.
        split; [done|]. split; [by eexists|]. split; [done|].
        split; [split; [by right|by intros [?|?]]|]. split; [by rewrite app_nil_r|].
        exists []. by rewrite app_nil_r.
      * rewrite (bool_decide_eq_false_2 _ Hout). simpl.
        unfold AM.track, AM.enabled. simpl. fold (AM.enabled m). rewrite Hen.
        simpl. rewrite lookup_insert_eq. simpl.
        split; [done|]. split; [rewrite lookup_insert_eq; by eexists|].
        split; [by rewrite lookup_insert_eq|].
        split; [split; [by left|]; intros _; apply elem_of_union; left;
                by apply elem_of_singleton|].
        unfold AM.viewedEvents, AM.thresholdEvent. simpl.
        rewrite lookup_insert_eq, Hs. simpl.
        rewrite List.filter_app. simpl. split; [done|].
        eexists. split; [reflexivity|].
        unfold AM.viewedOf. simpl. by rewrite String.eqb_refl.
    + unfold AM.viewedEvents. simpl. rewrite lookup_insert_eq, Hs. simpl.
      split; [done|]. split; [by eexists|]. split; [done|].
      split; [split; [by right|by intros [?|?]]|]. split; [by rewrite app_nil_r|].
      exists []. by rewrite app_nil_r.
  - rewrite (bool_decide_eq_false_2 (p = pid)) by done. simpl.
    destruct (AM.sessionData m !! p) as [sp|] eqn:Hsp.
    2: { split; [done|]. split; [by eexists|]. split; [done|].
         split; [split; [by right|by intros [?|?]]|]. split; [by rewrite app_nil_r|].
         exists []. by rewrite app_nil_r. }
    destruct (AM.reachesThreshold coerce m (div t d)
              && negb (bool_decide (p ∈ AM.viewedThresholds m))); simpl.
    + unfold AM.track, AM.enabled. simpl. fold (AM.enabled m). rewrite Hen.
      simpl. rewrite lookup_insert_eq. simpl.
      split; [done|].
      split; [rewrite !lookup_insert_ne by done; by eexists|].
      split; [by rewrite !lookup_insert_ne by done|].
      split; [rewrite other_player_mark by congruence;
              split; [by right|by intros [?|?]]|].
      unfold AM.viewedEvents. simpl.
      rewrite !lookup_insert_ne, Hs, app_nil_r by done. split; [done|].
      eexists. split; [reflexivity|].
      unfold AM.viewedOf. simpl.
      by rewrite (proj2 (String.eqb_neq p pid) Hne).
    + split; [done|].
      split; [rewrite lookup_insert_ne by done; by eexists|].
      split; [by rewrite lookup_insert_ne by done|].
      split; [split; [by right|by intros [?|?]]|].
      unfold AM.viewedEvents. simpl.
      rewrite lookup_insert_ne, Hs, app_nil_r by done. split; [done|].
      exists []. by rewrite app_nil_r.
Qed.

Lemma thresholdEvent_same (m m' : AM.t) (c : AM.progressCall) :
  AM.config m' = AM.config m ->
  AM.sessionIdOf <$> AM.sessionData m' !! AM.callPlayer c
  = AM.sessionIdOf <$> AM.sessionData m !! AM.callPlayer c ->
  AM.thresholdEvent m' c = AM.thresholdEvent m c.
Proof.
  intros Hc Hs. unfold AM.thresholdEvent, AM.contextData, AM.configProp.
  by rewrite Hc, Hs.
Qed.

End ViewedThreshold.

Lemma find_snoc {A} (f : A -> bool) (l : list A) (x : A) :
  find f (l ++ [x]) =
  match find f l with
  | Some y => Some y
  | None => if f x then Some x else None
  end.
Proof.
  induction l as [|y l IH]; simpl; [done|]. by destruct (f y).
Qed.

(** The state of the session of [pid] after some calls: the player is
    marked and the event of the first call that reached the threshold is
    recorded, or, when no call for [pid] reached it, there is neither mark
    nor event; the queue has received the same events of [pid]. *)
Lemma trackProgress_calls (coerce : value -> number)
    (m : AM.t) (pid : string) (calls : list AM.progressCall) :
  AM.enabled m = true -> is_Some (AM.sessionData m !! pid) ->
  AM.viewedEvents pid m = [] -> pid ∉ AM.viewedThresholds m ->
  let m' := foldl (AM.trackProgressCall coerce) m calls in
  let fired := match AM.firstReaching coerce m pid calls with
               | Some c => [AM.thresholdEvent m c]
               | None => []
               end in
  AM.config m' = AM.config m
  /\ is_Some (AM.sessionData m' !! pid)
  /\ AM.sessionIdOf <$> AM.sessionData m' !! pid
     = AM.sessionIdOf <$> AM.sessionData m !! pid
  /\ (pid ∈ AM.viewedThresholds m'
      <-> is_Some (AM.firstReaching coerce m pid calls))
  /\ AM.viewedEvents pid m' = fired
  /\ exists added, AM.trackingQueue m' = AM.trackingQueue m ++ added
                   /\ AM.viewedOf pid added = fired.
Proof.
  intros Hen Hs Hnone Hout.
  induction calls as [|c calls (IHc & IHs & IHid & IHmark & IHev & added & IHq & IHadded)]
    using rev_ind.
  { simpl. split; [done|]. split; [done|]. split; [done|].
    split; [split; [done|by intros [? ?]]|]. split; [done|].
    exists []. by rewrite app_nil_r. }
  unfold AM.firstReaching in *. rewrite foldl_app, find_snoc. simpl.
  set (x := foldl (AM.trackProgressCall coerce) m calls) in *.
  assert (AM.enabled x = true) as Henx.
  { by rewrite (enabled_config m x IHc). }
  destruct (trackProgress_step coerce x c pid Henx IHs)
    as (Hc & Hs' & Hid & Hmark & Hev & added' & Hq & Hadded).
  rewrite (reaches_config coerce m x c IHc) in Hmark, Hev, Hadded.
  split; [congruence|]. split; [done|]. split; [congruence|].
  destruct (find _ calls) as [c0|] eqn:Hfirst.
  - assert (pid ∈ AM.viewedThresholds x) as Hin by (apply IHmark; by eexists).
    rewrite (bool_decide_eq_true_2 _ Hin), andb_false_r in Hmark, Hev, Hadded.
    rewrite app_nil_r in Hev.
    split; [split; [by eexists|intros _; apply Hmark; by right]|].
    split; [congruence|].
    exists (added ++ added'). rewrite Hq, IHq, app_assoc. split; [done|].
    unfold AM.viewedOf in *. by rewrite List.filter_app, IHadded, Hadded, app_nil_r.
  - assert (pid ∉ AM.viewedThresholds x) as Hout'.
    { intros Hin. apply IHmark in Hin as [? ?]. done. }
    rewrite (bool_decide_eq_false_2 _ Hout'), andb_true_r in Hmark, Hev, Hadded.
    rewrite IHev in Hev. simpl in Hev.
    destruct (bool_decide (AM.callPlayer c = pid) && AM.reaches coerce m c)
      eqn:Hfires.
    + apply andb_true_iff in Hfires as [Hpid _].
      apply bool_decide_eq_true in Hpid.
      assert (AM.thresholdEvent x c = AM.thresholdEvent m c) as Hsame.
      { apply thresholdEvent_same; [done|]. by rewrite Hpid. }
      rewrite Hsame in Hev, Hadded.
      split; [split; [by eexists|]; intros _; apply Hmark; by left|].
      split; [done|].
      exists (added ++ added'). rewrite Hq, IHq, app_assoc. split; [done|].
      unfold AM.viewedOf in *. by rewrite List.filter_app, IHadded, Hadded.
    + split; [split; [intros Hin; apply Hmark in Hin as [?|?]; done
                     |by intros [? ?]]|].
      split; [done|].
      exists (added ++ added'). rewrite Hq, IHq, app_assoc. split; [done|].
      unfold AM.viewedOf in *. by rewrite List.filter_app, IHadded, Hadded.
Qed.

(** C7, as stated, fails: the manager has one configuration for all
    players, the one given to the last [init].  When a second player is
    initialised with tracking disabled, the session of the first player
    is still there, its progress of nine tenths is above the threshold of
    0.8, and [trackProgress] returns at its first test: nothing is
    recorded and nothing is queued. *)
Lemma second_player_stops_tracking :
  let on := obj [("enabled", VBool true);
                 ("viewedThreshold", VNum (double (8 # 10)))] in
  let off := obj [("enabled", VBool false);
                  ("viewedThreshold", VNum (double (8 # 10)))] in
  let m := AM.init "up_2" off 5 "s2" (AM.init "up_1" on 0 "s1" AM.new) in
  let c := AM.ProgressCall "up_1" (num 9) (num 10) 20 in
  let m' := AM.trackProgressCall (fun _ => NaN) m c in
  (exists s, AM.sessionData m !! "up_1" = Some s /\ AM.events s = [])
  /\ AM.reaches (fun _ => NaN) m c = true
  /\ AM.viewedEvents "up_1" m' = []
  /\ AM.trackingQueue m' = [].
Proof.
  split; [|split; [|split]]; [|vm_compute; reflexivity..].
  eexists. split; vm_compute; reflexivity.
Qed.

(** C7 (amended): in a session of an enabled analytics manager that has
    neither the event nor the mark yet, any sequence of [trackProgress]
    calls, for this player and for others, tracks
    [viewed_threshold_reached] at most once, and exactly once when some
    call for the player comes with a usable duration and a quotient
    [currentTime / duration], rounded as JavaScript rounds it, at or above
    the configured threshold, however often the progress crosses the
    threshold afterwards.  Tracked means what [track] does: the event of
    the first such call, with its threshold, progress, times, session
    identifier and context, is appended to the events of the session and
    to the tracking queue, and no other event of that type and player
    is. *)
Theorem viewed_threshold_fires_once (coerce : value -> number)
    (m : AM.t) (pid : string) (calls : list AM.progressCall) :
  AM.enabled m = true -> is_Some (AM.sessionData m !! pid) ->
  AM.viewedEvents pid m = [] -> pid ∉ AM.viewedThresholds m ->
  let m' := foldl (AM.trackProgressCall coerce) m calls in
  (length (AM.viewedEvents pid m') <= 1)%nat
  /\ (length (AM.viewedEvents pid m') = 1%nat <->
      exists c, c ∈ calls /\ AM.callPlayer c = pid
                /\ AM.reaches coerce m c = true)
  /\ AM.viewedEvents pid m' =
     match AM.firstReaching coerce m pid calls with
     | Some c => [AM.thresholdEvent m c]
     | None => []
     end
  /\ exists added,
       AM.trackingQueue m' = AM.trackingQueue m ++ added
       /\ AM.viewedOf pid added = AM.viewedEvents pid m'.
Proof.
  intros Hen Hs Hnone Hout m'.
  destruct (trackProgress_calls coerce m pid calls Hen Hs Hnone Hout)
    as (_ & _ & _ & _ & Hev & added & Hq & Hadded).
  fold m' in Hev, Hq. rewrite Hev.
  split; [destruct (AM.firstReaching _ _ _ _); simpl; lia|].
  split; [|split; [done|by exists added]].
  unfold AM.firstReaching. destruct (find _ calls) as [c|] eqn:Hfirst; simpl.
  - split; [|done]. intros _.
    apply find_some in Hfirst as [Hc Hcond].
    apply andb_true_iff in Hcond as [Hpid Hr].
    apply bool_decide_eq_true in Hpid.
    exists c. by rewrite list_elem_of_In.
  - split; [done|]. intros (c & Hc & Hpid & Hr).
    apply list_elem_of_In in Hc.
    pose proof (find_none _ _ Hfirst c Hc) as Hno. simpl in Hno.
    by rewrite Hr, bool_decide_eq_true_2 in Hno.
Qed.

(** The amended C7 on a session that comes to the threshold of 0.8 at 80
    of 100 seconds (the quotient is the double 0.8 itself), seeks back and
    crosses it again, while another player reports progress too: one
    event, that of the call at 80 seconds, in the session and in the
    queue, where the event of the other player follows it. *)
Lemma viewed_threshold_fires_once_witness :
  let cfg := obj [("enabled", VBool true);
                  ("videoId", VStr "v42");
                  ("viewedThreshold", VNum (double (8 # 10)))] in
  let m := AM.init "up_2" cfg 5 "s2" (AM.init "up_1" cfg 0 "s1" AM.new) in
  let calls := [ AM.ProgressCall "up_1" (num 10) (num 100) 10;
                 AM.ProgressCall "up_1" (num 80) (num 100) 20;
                 AM.ProgressCall "up_2" (num 90) (num 100) 25;
                 AM.ProgressCall "up_1" (num 30) (num 100) 30;
                 AM.ProgressCall "up_1" (num 95) (num 100) 40 ] in
  let m' := foldl (AM.trackProgressCall (fun _ => NaN)) m calls in
  let e :=
    AM.MkEvent "viewed_threshold_reached" "up_1" 20 (Some "s1")
      [ ("playerId", VStr "up_1");
        ("threshold", VNum (double (8 # 10)));
        ("progress", VNum (double (8 # 10)));
        ("currentTime", VNum (num 80));
        ("duration", VNum (num 100)) ]
      [ ("cdn", VUndefined); ("isp", VUndefined); ("geo", VUndefined);
        ("videoId", VStr "v42"); ("playerSource", VUndefined) ] in
  AM.viewedEvents "up_1" m' = [e]
  /\ map AM.timestamp (AM.trackingQueue m') = [20%Z; 25%Z]
  /\ AM.viewedOf "up_1" (AM.trackingQueue m') = [e].
Proof.
  intros cfg m calls m' e.
  destruct (viewed_threshold_fires_once (fun _ => NaN) m "up_1" calls)
    as (_ & _ & Hev & added & Hq & Hadded).
  - vm_compute. reflexivity.
  - vm_compute. by eexists.
  - vm_compute. reflexivity.
  - apply not_elem_of_empty.
  - fold m' in Hev, Hq, Hadded.
    assert (AM.viewedEvents "up_1" m' = [e]) as He.
    { rewrite Hev. vm_compute. reflexivity. }
    split; [exact He|]. split; [vm_compute; reflexivity|].
    rewrite Hq. change (AM.trackingQueue m) with (@nil AM.EventData).
    simpl. by rewrite Hadded.
Defined.

(** ** Validation at initialization *)

Lemma deepMerge_thrown (target source : gmap string value) (e : exn) :
  deepMerge target source = Some (Throw e) ->
  e = TypeError "source.hasOwnProperty is not a function".
Proof.
  unfold deepMerge.
  destruct (mergeEnding (VObj target) (VObj source));
    [discriminate| |discriminate].
  intros H. by injection H.
Qed.

(** C4 against the code: [UniversalPlayer.init] does not validate.  Once
    the container is found, [init] returns an instance for every
    configuration that [createConfig] returns, and the instance holds
    that configuration; whatever [init] throws is the missing container
    or the TypeError of the merge, never a validation error:
    [validateConfig] is not called.  With no [videoUrl], a start offset of
    -5 and a volume of 3, [init] returns an instance whose configuration
    [validateConfig] would refuse with all three violations in its
    message.  And [validateConfig] itself lets a NaN start offset
    through. *)
Theorem init_skips_validation (coerce : value -> number) :
  (forall container user playerId fresh cfg,
      truthy container = true ->
      createConfig (<["container" := container]> user) = Some (Return cfg) ->
      exists inst,
        init container user playerId fresh = Some (Return inst)
        /\ config inst = cfg)
  /\ (forall container user playerId fresh e,
      init container user playerId fresh = Some (Throw e) ->
      e = Error "Container not found"
      \/ e = TypeError "source.hasOwnProperty is not a function")
  /\ (let user := obj [("startOffset", VNum (num (-5)));
                       ("volume", VNum (num 3))] in
      exists inst,
        init (VObj (obj [])) user "up_1" 0 = Some (Return inst)
        /\ validateConfig coerce (config inst) =
           Throw (Error ("Configuration validation failed: "
                         +:+ "videoUrl is required, "
                         +:+ "startOffset must be a positive number, "
                         +:+ "volume must be between 0 and 1")))
  /\ validateConfig coerce
       (obj [("videoUrl", VStr "clip.mp4"); ("startOffset", VNum NaN)])
     = Return (obj [("videoUrl", VStr "clip.mp4"); ("startOffset", VNum NaN)]).
Proof.
  split; [|split; [|split]].
  - intros container user playerId fresh cfg Hc Hcfg. unfold init.
    rewrite Hc, Hcfg. simpl.
    eexists. split; [reflexivity|]. unfold newInstance.
    by destruct (MediaFactory.createMediaSource _ _ _).
  - intros container user playerId fresh e. unfold init.
    destruct (truthy container); simpl.
    + destruct (createConfig _) as [[cfg|e']|] eqn:Hcfg; [discriminate| |discriminate].
      intros H. injection H as <-. right. by apply deepMerge_thrown in Hcfg.
    + intros H. injection H as <-. by left.
  - intros user.
    exists (newInstance "up_1"
              (createdConfig (<["container" := VObj (obj [])]> user)) 0).
    split.
    + unfold init, createConfig. rewrite deepMerge_returns; [reflexivity|].
      vm_compute. reflexivity.
    + vm_compute. reflexivity.
  - vm_compute. reflexivity.
Qed.

(* ===================================================================== *)
(** * Further properties of the code *)
(* ===================================================================== *)

(** ** EventManager: subscriptions *)

(** The outcome of [emit] when the listeners of the event leave its
    subscriptions alone: the calls made and the two arrays afterwards. *)
Lemma emit_left_alone
  (env : nat -> EM.behaviour) (ev : string) (data : value) (w : EM.world) :
  Forall (EM.leavesAlone env ev)
         (EM.regularListeners ev w ++ EM.onceListeners ev w) ->
  exists w',
    EM.emit env ev data w = (w', None)
    /\ EM.invoked w' =
       EM.invoked w
       ++ map (EM.callOf data) (EM.regularListeners ev w ++ EM.onceListeners ev w)
    /\ EM.regularListeners ev w' = EM.regularListeners ev w
    /\ EM.onceListeners ev w' = [].
Proof.
  intros Hquiet. apply Forall_app in Hquiet as [Hreg Honce].
  unfold EM.emit, EM.seq.
  assert (exists w1,
    (if decide (is_Some (EM.events (EM.manager w) !! ev))
     then EM.forEach (EM.regularListeners ev)
            (fun l => EM.tryCatch (EM.invoke env l data)
               (fun _ => EM.consoleError ("Error in event listener for " +:+ ev))) w
     else EM.skip w) = (w1, None)
    /\ EM.sameArrays ev w w1
    /\ EM.invoked w1 =
       EM.invoked w ++ map (EM.callOf data) (EM.regularListeners ev w))
    as (w1 & -> & Hw1 & Hinv1).
  { destruct (decide (is_Some (EM.events (EM.manager w) !! ev))) as [_|Hnone].
    - destruct (forEach_all env ev data ("Error in event listener for " +:+ ev)
                  (EM.regularListeners ev) w) as (w1 & Hrun & Hsame & Hinv & _).
      { apply regularListeners_same. }
      { done. }
      by exists w1.
    - exists w. split; [done|]. split; [done|]. unfold EM.regularListeners.
      destruct (EM.events (EM.manager w) !! ev); [by destruct Hnone|].
      simpl. by rewrite app_nil_r. }
  pose proof (onceListeners_same ev w w1 Hw1) as Honces.
  pose proof (regularListeners_same ev w w1 Hw1) as Hregs.
  destruct (decide (is_Some (EM.onceEvents (EM.manager w1) !! ev))) as [_|Hnone].
  - destruct (forEach_all env ev data ("Error in once event listener for " +:+ ev)
                (EM.onceListeners ev) w1) as (w2 & -> & Hw2 & Hinv2 & _).
    { apply onceListeners_same. }
    { by rewrite Honces. }
    pose proof (regularListeners_same ev w1 w2 Hw2) as Hregs2.
    eexists. split; [reflexivity|]. split; [|split].
    + simpl. by rewrite Hinv2, Hinv1, Honces, map_app, <- app_assoc.
    + exact (eq_trans Hregs2 Hregs).
    + unfold EM.onceListeners. simpl. by rewrite lookup_delete_eq.
  - exists w1. split; [done|].
    assert (EM.onceListeners ev w1 = []) as Hempty.
    { unfold EM.onceListeners.
      destruct (EM.onceEvents (EM.manager w1) !! ev) eqn:E; [|done].
      destruct Hnone. by eexists. }
    rewrite Hinv1, <- Honces, Hempty, app_nil_r. by repeat split.
Qed.

(** X1: a once-listener is called by one [emit] only.  When the listeners
    of an event leave its subscriptions alone, a first [emit] calls the
    regular listeners and then the once-listeners, and a second [emit] of
    the same event calls the regular listeners again and nobody else. *)
Theorem once_listeners_are_called_once
  (env : nat -> EM.behaviour) (ev : string) (d1 d2 : value) (w : EM.world) :
  Forall (EM.leavesAlone env ev)
         (EM.regularListeners ev w ++ EM.onceListeners ev w) ->
  exists w1 w2,
    EM.emit env ev d1 w = (w1, None)
    /\ EM.emit env ev d2 w1 = (w2, None)
    /\ EM.invoked w2 =
       EM.invoked w
       ++ map (EM.callOf d1) (EM.regularListeners ev w ++ EM.onceListeners ev w)
       ++ map (EM.callOf d2) (EM.regularListeners ev w).
Proof.
  intros Hquiet.
  destruct (emit_left_alone env ev d1 w Hquiet) as (w1 & H1 & Hinv1 & Hr1 & Ho1).
  destruct (emit_left_alone env ev d2 w1) as (w2 & H2 & Hinv2 & _).
  { rewrite Hr1, Ho1, app_nil_r. by apply Forall_app in Hquiet as [? _]. }
  exists w1, w2. split; [done|]. split; [done|].
  by rewrite Hinv2, Hinv1, Hr1, Ho1, app_nil_r, <- app_assoc.
Qed.

Lemma once_listeners_are_called_once_witness :
  let env := fun n : nat => EM.Behaviour [] (Nat.eqb n 2) in
  let w := EM.World
             (EM.once "ready" 2%nat VNull
                (EM.on "ready" 1%nat VNull EM.new)) [] [] in
  exists w1 w2,
    EM.emit env "ready" (VStr "a") w = (w1, None)
    /\ EM.emit env "ready" (VStr "b") w1 = (w2, None)
    /\ EM.calledCallbacks w2 = [1%nat; 2%nat; 1%nat].
Proof.
  intros env w.
  destruct (once_listeners_are_called_once env "ready" (VStr "a") (VStr "b") w)
    as (w1 & w2 & H1 & H2 & Hinv).
  { vm_compute. repeat constructor. }
  exists w1, w2. split; [exact H1|]. split; [exact H2|].
  unfold EM.calledCallbacks. rewrite Hinv. vm_compute. reflexivity.
Defined.

(** ** EventManager: unsubscribing and clearing *)

(** X2: [off] looks at the regular listeners only.  A callback subscribed
    with [once] stays subscribed after [off] for the same event and
    callback, and the next [emit] still calls it. *)
Theorem off_does_not_reach_once_listeners
  (env : nat -> EM.behaviour) (ev : string) (cb : nat) (ctx data : value)
  (m : EM.t) :
  let w := EM.World (EM.off ev cb (EM.once ev cb ctx m)) [] [] in
  Forall (EM.leavesAlone env ev)
         (EM.regularListeners ev w ++ EM.onceListeners ev w) ->
  EM.onceEvents (EM.off ev cb (EM.once ev cb ctx m))
  = EM.onceEvents (EM.once ev cb ctx m)
  /\ exists w', EM.emit env ev data w = (w', None)
                /\ cb ∈ EM.calledCallbacks w'.
Proof.
  intros w Hquiet.
  assert (EM.onceEvents (EM.off ev cb (EM.once ev cb ctx m))
          = EM.onceEvents (EM.once ev cb ctx m)) as Honce.
  { unfold EM.off. destruct (EM.events (EM.once ev cb ctx m) !! ev); [|done].
    by destruct (EM.findIndex cb l). }
  split; [done|].
  destruct (emit_left_alone env ev data w Hquiet) as (w' & Hemit & Hinv & _).
  exists w'. split; [done|]. unfold EM.calledCallbacks. rewrite Hinv. simpl.
  rewrite !map_app. apply elem_of_app. right.
  unfold EM.onceListeners. subst w. simpl. rewrite Honce. simpl.
  rewrite lookup_insert_eq. simpl. rewrite !map_app. simpl.
  apply elem_of_app. right. apply list_elem_of_here.
Qed.

Lemma off_does_not_reach_once_listeners_witness :
  let env := fun _ : nat => EM.Behaviour [] false in
  exists w',
    EM.emit env "ended" VNull
      (EM.World (EM.off "ended" 7%nat (EM.once "ended" 7%nat VNull EM.new)) [] [])
    = (w', None)
    /\ 7%nat ∈ EM.calledCallbacks w'.
Proof.
  intros env.
  destruct (off_does_not_reach_once_listeners env "ended" 7%nat VNull VNull EM.new)
    as (_ & Hcalled).
  { vm_compute. repeat constructor. }
  exact Hcalled.
Defined.

Lemma findIndex_None cb ls :
  EM.findIndex cb ls = None <-> cb ∉ map EM.callback ls.
Proof.
  induction ls as [|l ls IH]; simpl.
  - split; [intros _; apply not_elem_of_nil|done].
  - destruct (Nat.eqb_spec (EM.callback l) cb) as [->|Hne].
    + split; [done|]. intros Hnot. destruct Hnot. apply list_elem_of_here.
    + destruct (EM.findIndex cb ls) as [i|]; simpl.
      * split; [done|]. intros Hnot. exfalso.
        apply not_elem_of_cons in Hnot as [_ Hnot]. by apply IH in Hnot.
      * split; [|done]. intros _. apply not_elem_of_cons. split; [done|].
        by apply IH.
Qed.

Lemma findIndex_Some cb ls i :
  EM.findIndex cb ls = Some i ->
  exists l1 l l2, ls = l1 ++ l :: l2 /\ EM.callback l = cb
                  /\ (cb ∉ map EM.callback l1) /\ delete i ls = l1 ++ l2.
Proof.
  revert i. induction ls as [|l ls IH]; intros i; simpl; [done|].
  destruct (Nat.eqb_spec (EM.callback l) cb) as [Heq|Hne].
  - intros [= <-]. exists [], l, ls. repeat split; [done|apply not_elem_of_nil].
  - destruct (EM.findIndex cb ls) as [j|]; simpl; [|done]. intros [= <-].
    destruct (IH j eq_refl) as (l1 & l' & l2 & -> & Hcb & Hnot & Hdel).
    exists (l :: l1), l', l2. split; [done|]. split; [done|]. split.
    + simpl. apply not_elem_of_cons. by split.
    + simpl. by rewrite Hdel.
Qed.

(** X3: [off(eventName, callback)] removes one subscription, the earliest
    one of that callback for that event, and keeps the order of the
    others; when the callback is not subscribed for the event the emitter
    is unchanged. *)
Theorem off_removes_earliest_subscription (ev : string) (cb : nat) (m : EM.t) :
  let before := default [] (EM.events m !! ev) in
  let after := default [] (EM.events (EM.off ev cb m) !! ev) in
  (cb ∉ map EM.callback before -> EM.off ev cb m = m)
  /\ (cb ∈ map EM.callback before ->
      exists l1 l l2,
        before = l1 ++ l :: l2 /\ EM.callback l = cb
        /\ (cb ∉ map EM.callback l1) /\ after = l1 ++ l2)
  /\ (forall other, other <> ev ->
        EM.events (EM.off ev cb m) !! other = EM.events m !! other)
  /\ EM.onceEvents (EM.off ev cb m) = EM.onceEvents m.
Proof.
  intros before after. subst before after. unfold EM.off.
  destruct (EM.events m !! ev) as [ls|] eqn:Hls; simpl.
  - destruct (EM.findIndex cb ls) as [i|] eqn:Hi; simpl.
    + split; [|split; [|split; [|done]]].
      * intros Hnot. apply findIndex_None in Hnot. congruence.
      * intros _. rewrite lookup_insert_eq. simpl. by apply findIndex_Some.
      * intros other Hne. by rewrite lookup_insert_ne.
    + split; [done|]. split; [|by split].
      intros Hin. apply findIndex_None in Hi. by destruct Hi.
  - split; [done|]. split; [|by split]. intros Hin. by apply elem_of_nil in Hin.
Qed.

Lemma off_removes_earliest_subscription_witness :
  let m := EM.on "play" 1%nat (VStr "third")
             (EM.on "play" 2%nat (VStr "second")
                (EM.on "play" 1%nat (VStr "first") EM.new)) in
  exists l1 l l2,
    default [] (EM.events m !! "play") = l1 ++ l :: l2
    /\ EM.callback l = 1%nat /\ (1%nat ∉ map EM.callback l1)
    /\ default [] (EM.events (EM.off "play" 1%nat m) !! "play") = l1 ++ l2.
Proof.
  intros m.
  destruct (off_removes_earliest_subscription "play" 1%nat m) as (_ & Hpresent & _).
  apply Hpresent. vm_compute. apply list_elem_of_here.
Defined.

(** X4: after [clear(eventName)], and after [clearAll()], an [emit] of the
    event calls nobody, logs nothing and changes nothing; [clear] leaves
    the listeners of every other event in place. *)
Theorem emit_after_clear_does_nothing
  (env : nat -> EM.behaviour) (ev : string) (data : value) (m : EM.t)
  (called : list EM.invocation) (lines : list string) :
  EM.emit env ev data (EM.World (EM.clear ev m) called lines)
  = (EM.World (EM.clear ev m) called lines, None)
  /\ EM.emit env ev data (EM.World (EM.clearAll m) called lines)
     = (EM.World (EM.clearAll m) called lines, None)
  /\ (forall other, other <> ev ->
        EM.events (EM.clear ev m) !! other = EM.events m !! other
        /\ EM.onceEvents (EM.clear ev m) !! other = EM.onceEvents m !! other).
Proof.
  split; [|split].
  - unfold EM.emit, EM.seq, EM.clear. simpl. rewrite !lookup_delete_eq.
    by repeat (destruct (decide (is_Some _)) as [[? ?]|_]; [done|]; simpl;
               rewrite ?lookup_delete_eq, ?lookup_empty).
  - unfold EM.emit, EM.seq, EM.clearAll, EM.new. simpl. rewrite !lookup_empty.
    by repeat (destruct (decide (is_Some _)) as [[? ?]|_]; [done|]; simpl;
               rewrite ?lookup_delete_eq, ?lookup_empty).
  - intros other Hne. unfold EM.clear. simpl.
    by rewrite !lookup_delete_ne.
Qed.

(** ** ConfigManager: the created configuration and the validator *)

(** X5: the configuration that [createConfig] returns has exactly the keys
    of the defaults and of the user object: no option is dropped, and no
    key appears that neither side has.  With an empty user object
    [createConfig] returns the defaults. *)
Theorem createConfig_keys (user cfg : gmap string value) (k : string) :
  createConfig user = Some (Return cfg) ->
  (is_Some (cfg !! k) <-> is_Some (defaultConfig !! k) \/ is_Some (user !! k))
  /\ createConfig ∅ = Some (Return defaultConfig).
Proof.
  intros Hcfg. apply deepMerge_returned in Hcfg as ->. split.
  - rewrite lookup_mergedObject.
    destruct (defaultConfig !! k) as [d|], (user !! k) as [u|]; simpl.
    + split; [intros _; left|intros _]; by eexists.
    + split; [intros _; left|intros _]; by eexists.
    + split; [intros _; right|intros _]; by eexists.
    + split; [by intros [? ?]|by intros [[? ?]|[? ?]]].
  - unfold createConfig. rewrite deepMerge_returns by (vm_compute; reflexivity).
    assert (mergedObject defaultConfig ∅ = defaultConfig) as ->; [|done].
    apply map_eq. intros i.
    rewrite lookup_mergedObject, lookup_empty. by destruct (defaultConfig !! i).
Qed.

Lemma createConfig_keys_witness :
  let user := obj [("mediaType", VStr "mp4"); ("autoplay", VBool true)] in
  exists cfg, createConfig user = Some (Return cfg)
              /\ is_Some (cfg !! "mediaType") /\ is_Some (cfg !! "poster").
Proof.
  intros user. exists (createdConfig user).
  assert (createConfig user = Some (Return (createdConfig user))) as Hcfg.
  { unfold createConfig, deepMerge.
    assert (mergeEnding (VObj defaultConfig) (VObj user) = Returns) as ->
      by (vm_compute; reflexivity).
    reflexivity. }
  split; [exact Hcfg|]. split.
  - apply (createConfig_keys user _ "mediaType" Hcfg). right.
    vm_compute. by eexists.
  - apply (createConfig_keys user _ "poster" Hcfg). left.
    vm_compute. by eexists.
Defined.

(** X6: a configuration created from a user object without a truthy
    [videoUrl] never passes [validateConfig]: the default URL is the empty
    string, so the validator throws, with "videoUrl is required" as its
    first violation. *)
Theorem validateConfig_needs_url (coerce : value -> number)
    (user cfg : gmap string value) :
  createConfig user = Some (Return cfg) ->
  truthy (prop user "videoUrl") = false ->
  (exists rest, violations coerce cfg = "videoUrl is required" :: rest)
  /\ exists message, validateConfig coerce cfg = Throw (Error message).
Proof.
  intros Hcfg Hurl. apply deepMerge_returned in Hcfg as ->.
  assert (truthy (prop (mergedObject defaultConfig user) "videoUrl") = false)
    as Hmerged.
  { assert (defaultConfig !! "videoUrl" = Some (VStr "")) as Hdefault
      by (vm_compute; reflexivity).
    unfold prop in *. rewrite lookup_mergedObject, Hdefault.
    destruct (user !! "videoUrl") as [v|]; [|reflexivity].
    rewrite mergeValue_over_leaf by reflexivity. exact Hurl. }
  assert (exists rest,
      violations coerce (mergedObject defaultConfig user)
      = "videoUrl is required" :: rest) as [rest Hrest].
  { unfold violations. rewrite Hmerged. by eexists. }
  split; [by exists rest|]. unfold validateConfig. rewrite Hrest.
  by eexists.
Qed.

Lemma validateConfig_needs_url_witness :
  let user := obj [("autoplay", VBool true); ("videoUrl", VNull)] in
  exists cfg message,
    createConfig user = Some (Return cfg)
    /\ validateConfig (fun _ => NaN) cfg = Throw (Error message).
Proof.
  intros user.
  assert (createConfig user = Some (Return (createdConfig user))) as Hcfg.
  { unfold createConfig, deepMerge.
    assert (mergeEnding (VObj defaultConfig) (VObj user) = Returns) as ->
      by (vm_compute; reflexivity).
    reflexivity. }
  destruct (validateConfig_needs_url (fun _ => NaN) user _ Hcfg)
    as (_ & message & Hthrow); [reflexivity|].
  exists (createdConfig user), message. split; [exact Hcfg|exact Hthrow].
Defined.

Lemma truthy_fin (q : Q) : truthy (VNum (Fin q)) = negb (Qeq_bool q 0).
Proof. reflexivity. Qed.

Lemma negative_not_zero (q : Q) : Qle_bool 0 q = false -> Qeq_bool q 0 = false.
Proof.
  intros Hneg. destruct (Qeq_bool q 0) eqn:E; [|done].
  apply Qeq_bool_iff in E. apply Qle_bool_false in Hneg.
  rewrite E in Hneg. by apply Qlt_irrefl in Hneg.
Qed.

Lemma above_one_not_zero (q : Q) : Qle_bool q 1 = false -> Qeq_bool q 0 = false.
Proof.
  intros Habove. destruct (Qeq_bool q 0) eqn:E; [|done].
  apply Qeq_bool_iff in E. apply Qle_bool_false in Habove.
  rewrite E in Habove. apply Qlt_not_le in Habove. destruct Habove.
  by vm_compute.
Qed.

(** X7: on a configuration with a URL and numeric [startOffset] and
    [volume], [validateConfig] returns exactly when the offset is not
    negative and the volume lies in [0, 1]; it then returns the very
    configuration it was given.  An offset of 0 is accepted, although the
    message asks for a positive number. *)
Theorem validateConfig_accepts_iff_in_range (coerce : value -> number)
    (config : gmap string value) (offset volume : Q) :
  truthy (prop config "videoUrl") = true ->
  prop config "startOffset" = VNum (Fin offset) ->
  prop config "volume" = VNum (Fin volume) ->
  (validateConfig coerce config = Return config <->
   (0 <= offset)%Q /\ (0 <= volume)%Q /\ (volume <= 1)%Q)
  /\ (forall other, validateConfig coerce config = Return other -> other = config).
Proof.
  intros Hurl Hoff Hvol. split.
  - unfold validateConfig, violations. rewrite Hurl, Hoff, Hvol, !truthy_fin.
    unfold lt_lit, gt_lit, greaterThan, ToNumber, lessThan, Number_isFinite,
      isFinite, num.
    change (inject_Z 0) with 0%Q. change (inject_Z 1) with 1%Q.
    cbn [negb orb andb app].
    destruct (Qle_bool 0 offset) eqn:Ho.
    + apply Qle_bool_iff in Ho. rewrite orb_false_r, andb_false_r.
      destruct (Qle_bool 0 volume) eqn:Hv0.
      * apply Qle_bool_iff in Hv0.
        destruct (Qle_bool volume 1) eqn:Hv1.
        -- apply Qle_bool_iff in Hv1. rewrite andb_false_r. simpl. by split.
        -- rewrite (above_one_not_zero _ Hv1). simpl. split; [done|].
           intros (_ & _ & Hle). apply Qle_bool_false in Hv1.
           by apply Qlt_not_le in Hv1.
      * rewrite (negative_not_zero _ Hv0). simpl. split; [done|].
        intros (_ & Hle & _). apply Qle_bool_false in Hv0.
        by apply Qlt_not_le in Hv0.
    + rewrite (negative_not_zero _ Ho). simpl. split.
      * by destruct (_ && _).
      * intros (Hle & _). apply Qle_bool_false in Ho. by apply Qlt_not_le in Ho.
  - intros other. unfold validateConfig.
    destruct (0 <? length (violations coerce config))%nat; [done|].
    by intros [= <-].
Qed.

Lemma validateConfig_accepts_iff_in_range_witness :
  let config := obj [("videoUrl", VStr "clip.mp4");
                     ("startOffset", VNum (num 0));
                     ("volume", VNum (Fin (1 # 2)))] in
  validateConfig (fun _ => NaN) config = Return config.
Proof.
  intros config.
  destruct (validateConfig_accepts_iff_in_range (fun _ => NaN) config 0 (1 # 2))
    as [Hiff _]; [reflexivity..|].
  apply Hiff. split; [|split]; by vm_compute.
Defined.

(** ** MediaFactory under the default configuration *)

(** X8: with the defaults of [createConfig] the URL does not decide the
    media source.  The default [priority] is ["hls"], and
    [detectMediaType] returns a truthy [priority] before it looks at the
    URL: unless the user object sets [priority] or [mediaType], the
    factory builds an [HLSSource] for every URL. *)
Theorem default_priority_gives_hls (user cfg : gmap string value) (url : value) :
  createConfig user = Some (Return cfg) ->
  user !! "priority" = None -> user !! "mediaType" = None ->
  createMediaSource url (prop cfg "mediaType") cfg = Return HLSSourceClass.
Proof.
  intros Hcfg Hpriority Htype. apply deepMerge_returned in Hcfg as ->.
  assert (prop (mergedObject defaultConfig user) "mediaType" = VUndefined) as ->.
  { unfold prop. rewrite lookup_mergedObject, Htype.
    assert (defaultConfig !! "mediaType" = None) as ->
      by (vm_compute; reflexivity).
    reflexivity. }
  assert (prop (mergedObject defaultConfig user) "priority" = VStr "hls") as Hp.
  { unfold prop. rewrite lookup_mergedObject, Hpriority.
    assert (defaultConfig !! "priority" = Some (VStr "hls")) as ->
      by (vm_compute; reflexivity).
    reflexivity. }
  unfold createMediaSource, detectedType, detectMediaType.
  cbn [truthy]. rewrite Hp. reflexivity.
Qed.

Lemma default_priority_gives_hls_witness :
  let user := obj [("videoUrl", VStr "https://cdn.example.com/movie.mp4")] in
  exists cfg,
    createConfig user = Some (Return cfg)
    /\ createMediaSource (prop cfg "videoUrl") (prop cfg "mediaType") cfg
       = Return HLSSourceClass.
Proof.
  intros user. exists (createdConfig user).
  assert (createConfig user = Some (Return (createdConfig user))) as Hcfg.
  { unfold createConfig, deepMerge.
    assert (mergeEnding (VObj defaultConfig) (VObj user) = Returns) as ->
      by (vm_compute; reflexivity).
    reflexivity. }
  split; [exact Hcfg|].
  apply (default_priority_gives_hls user _ _ Hcfg); reflexivity.
Defined.

(** ** AnalyticsManager: successful sends *)

(** One turn of the flush loop whose send is answered with an ok status:
    the first ten events of the queue are posted as one batch and leave
    the queue. *)
Lemma cycle_answered (status : nat) (m : AM.t) (cfg : gmap string value) :
  AM.config m = Some cfg -> truthy (prop cfg "trackingUrl") = true ->
  AM.isTracking m = true ->
  exists m',
    AM.cycle (AM.Responded true status) AM.idle m = (m', None)
    /\ AM.config m' = AM.config m
    /\ AM.isTracking m' = true
    /\ AM.console m' = AM.console m
    /\ AM.trackingQueue m' = drop 10 (AM.trackingQueue m)
    /\ concat (AM.posted m') = concat (AM.posted m) ++ take 10 (AM.trackingQueue m).
Proof.
  intros Hcfg Hurl Hloop. unfold AM.cycle. rewrite Hloop. simpl.
  destruct (AM.trackingQueue m) as [|e q] eqn:Eq.
  - exists m. split; [done|]. split; [done|]. split; [done|]. split; [done|].
    rewrite Eq. simpl. by rewrite app_nil_r.
  - unfold AM.takeBatch, AM.sendEvents. simpl. rewrite Hcfg, Hurl. simpl.
    unfold AM.tryCatch, AM.seq, AM.fetch, AM.idle. simpl.
    eexists. split; [reflexivity|]. simpl.
    split; [done|]. split; [done|]. split; [done|]. split; [done|].
    by rewrite concat_app, concat_cons, app_nil_r.
Qed.

(** X9: while every send is answered with an ok status and nothing else is
    tracked, the flush loop hands the queue over in order, ten events a
    turn: after [n] turns the batches posted so far make up the first
    [10 n] events of the queue, the rest is still queued, no event is
    posted twice, and nothing is written to the console. *)
Theorem answered_sends_drain_the_queue
    (n : nat) (status : nat) (m : AM.t) (cfg : gmap string value) :
  AM.config m = Some cfg -> truthy (prop cfg "trackingUrl") = true ->
  AM.isTracking m = true ->
  let m' := Nat.iter n (fun x => fst (AM.cycle (AM.Responded true status) AM.idle x)) m in
  AM.trackingQueue m' = drop (10 * n) (AM.trackingQueue m)
  /\ concat (AM.posted m') = concat (AM.posted m) ++ take (10 * n) (AM.trackingQueue m)
  /\ AM.console m' = AM.console m
  /\ AM.isTracking m' = true.
Proof.
  intros Hcfg Hurl Hloop.
  assert (let m' := Nat.iter n (fun x => fst (AM.cycle (AM.Responded true status) AM.idle x)) m in
          AM.config m' = Some cfg
          /\ AM.trackingQueue m' = drop (10 * n) (AM.trackingQueue m)
          /\ concat (AM.posted m') = concat (AM.posted m) ++ take (10 * n) (AM.trackingQueue m)
          /\ AM.console m' = AM.console m
          /\ AM.isTracking m' = true) as H.
  { induction n as [|n (IHc & IHq & IHp & IHl & IHt)].
    - simpl. rewrite drop_0, take_0, app_nil_r. by repeat split.
    - simpl Nat.iter. set (x := Nat.iter n _ m) in *.
      destruct (cycle_answered status x cfg IHc Hurl IHt)
        as (m' & -> & Hc & Ht & Hl & Hq & Hp).
      cbn [fst]. rewrite Hc, Hq, Hp, Hl, IHq, IHp, IHl.
      replace (10 * S n)%nat with (10 * n + 10)%nat by lia.
      split; [done|]. split; [by rewrite drop_drop|].
      split; [|by split].
      rewrite <- app_assoc. f_equal. by rewrite take_take_drop. }
  simpl in H. destruct H as (_ & Hq & Hp & Hl & Ht). by repeat split.
Qed.

Lemma answered_sends_drain_the_queue_witness :
  let cfg := obj [("enabled", VBool true);
                  ("trackingUrl", VStr "https://stats.example.com/collect")] in
  let m0 := AM.init "up_1" cfg 0 "s1" AM.new in
  let m := foldl (fun x t => AM.track "seek" "up_1" [] t x) m0
                 (map Z.of_nat (List.seq 1 25)) in
  let m' := Nat.iter 3 (fun x => fst (AM.cycle (AM.Responded true 200) AM.idle x)) m in
  AM.trackingQueue m' = []
  /\ map AM.timestamp (concat (AM.posted m')) = map Z.of_nat (List.seq 1 25)
  /\ map length (AM.posted m') = [10; 10; 5]%nat.
Proof.
  intros cfg m0 m m'.
  destruct (answered_sends_drain_the_queue 3 200 m cfg) as (Hq & Hp & _).
  - vm_compute. reflexivity.
  - vm_compute. reflexivity.
  - vm_compute. reflexivity.
  - fold m' in Hq, Hp. split; [|split].
    + rewrite Hq. vm_compute. reflexivity.
    + rewrite Hp. vm_compute. reflexivity.
    + vm_compute. reflexivity.
Defined.

(** ** PlayerInstance: what the state records *)

(** X10: [setVolume] stores its argument in [state.volume] as given, while
    the media source clamps what it hands to the element: after
    [setVolume(v)] with a finite [v] outside [0, 1] the state and the
    element disagree about the volume. *)
Theorem setVolume_state_is_not_clamped (v : Q) (i : PlayerInstance)
    (s : VS.t) (el : VS.MediaElement) :
  mediaSource i = Some s -> VS.videoElement s = Some el ->
  exists i' s' el' c,
    setVolume (Fin v) i = (i', None)
    /\ volume (state i') = Fin v
    /\ mediaSource i' = Some s' /\ VS.videoElement s' = Some el'
    /\ VS.volume el' = Fin c /\ (c == Qmax 0 (Qmin 1 v))%Q
    /\ ((v < 0)%Q \/ (1 < v)%Q -> ~ (c == v)%Q).
Proof.
  intros Hs Hel. unfold setVolume, seq, onSource, assign. rewrite Hs.
  unfold VS.setVolume. rewrite Hel.
  destruct (clamp_finite v) as (c & -> & Hc & H0 & H1).
  unfold mbind, completion_bind, JS.bind.
  rewrite (assignVolume_in_range c el H0 H1). simpl.
  do 4 eexists. split; [reflexivity|]. simpl.
  split; [done|]. split; [done|]. split; [done|]. split; [done|].
  split; [done|]. intros [Hlow|Hhigh] Heq; rewrite Heq in *.
  - by apply Qlt_not_le in Hlow.
  - by apply Qlt_not_le in Hhigh.
Qed.

Lemma setVolume_state_is_not_clamped_witness :
  let i := run [SourceLoaded (VS.MkElement (VStr "") (num 1) false true (num 0) (num 1))]
             (newInstance "up_1" (obj [("videoUrl", VStr "a.mp4"); ("priority", VStr "hls")]) 0) in
  exists i' s' el',
    setVolume (num 3) i = (i', None)
    /\ volume (state i') = num 3
    /\ mediaSource i' = Some s' /\ VS.videoElement s' = Some el'
    /\ strictEquals (VS.volume el') (num 1) = true.
Proof.
  intros i.
  destruct (setVolume_state_is_not_clamped 3 i
              (VS.loaded (VS.MkElement (VStr "") (num 1) false true (num 0) (num 1))
                 (VS.new 0 HLSSourceClass (VStr "a.mp4")
                    (obj [("videoUrl", VStr "a.mp4"); ("priority", VStr "hls")])))
              (VS.MkElement (VStr "a.mp4") (num 1) false true (num 0) (num 1)))
    as (i' & s' & el' & c & Hrun & Hstate & Hsrc & Hel & Hvol & Hc & _).
  - vm_compute. reflexivity.
  - reflexivity.
  - exists i', s', el'. split; [exact Hrun|]. split; [exact Hstate|].
    split; [exact Hsrc|]. split; [exact Hel|]. rewrite Hvol. simpl.
    apply Qeq_bool_iff. rewrite Hc. reflexivity.
Defined.

(** X11: a value that is not finite is refused by the media element, and
    the method that passed it on leaves the state as it was.  [seek(NaN)]
    and [setPlaybackRate(Infinity)] throw the element's TypeError, also
    [setVolume(NaN)], which goes through the clamp unchanged; no state
    field is written, no seek is tracked.  The infinities are fine for
    [setVolume], which clamps them. *)
Theorem non_finite_arguments_are_refused (i : PlayerInstance)
    (s : VS.t) (el : VS.MediaElement) (x : number) :
  mediaSource i = Some s -> VS.videoElement s = Some el ->
  isFinite x = false ->
  let refused := (i, Some (TypeError "The provided double value is non-finite.")) in
  seek x i = refused
  /\ setPlaybackRate x i = refused
  /\ setVolume NaN i = refused
  /\ (x <> NaN -> snd (setVolume x i) = None).
Proof.
  intros Hs Hel Hx. unfold seek, setPlaybackRate, setVolume, seq, onSource.
  rewrite Hs. unfold VS.seek, VS.setPlaybackRate, VS.setVolume. rewrite Hel.
  unfold mbind, completion_bind, JS.bind,
    VS.assignCurrentTime, VS.assignPlaybackRate. rewrite Hx. simpl.
  split; [done|]. split; [done|]. split; [done|].
  intros Hnan. destruct x as [| | |q]; [done| | |done]; reflexivity.
Qed.

Lemma non_finite_arguments_are_refused_witness :
  let i := run [SourceLoaded (VS.MkElement (VStr "") (num 1) false true (num 0) (num 1))]
             (newInstance "up_1" (obj [("videoUrl", VStr "a.mp4"); ("priority", VStr "hls")]) 0) in
  seek NaN i = (i, Some (TypeError "The provided double value is non-finite."))
  /\ effects (fst (seek NaN i)) = effects i.
Proof.
  intros i.
  destruct (non_finite_arguments_are_refused i
              (VS.loaded (VS.MkElement (VStr "") (num 1) false true (num 0) (num 1))
                 (VS.new 0 HLSSourceClass (VStr "a.mp4")
                    (obj [("videoUrl", VStr "a.mp4"); ("priority", VStr "hls")])))
              (VS.MkElement (VStr "a.mp4") (num 1) false true (num 0) (num 1))
              NaN) as (Hseek & _).
  - vm_compute. reflexivity.
  - reflexivity.
  - reflexivity.
  - split; [exact Hseek|]. by rewrite Hseek.
Defined.

(** ** AnalyticsManager: a disabled configuration *)


